(** * U.S. Tax Assistant for MS Teams: conversation-history lifecycle

    A shallow embedding of the history trimmer and token counter of
    [teamsBot.js], the disclaimer classifier of [taxDisclaimerClassifier.js],
    the persistence layer of [storageService.js] and the message handler of
    [TeamsBot], together with the properties the specification states about
    them. *)

From Stdlib Require Import ZArith NArith List String Ascii Bool Lia.
From stdpp Require Import base option list gmap.
Import ListNotations.

Local Open Scope Z_scope.

(** ** JavaScript strings

    A JavaScript string is a finite sequence of UTF-16 code units.  The code
    units are kept as [N]; a well-formed string only holds values below
    [2^16]. *)

Definition jsstring : Type := list N.

Definition js (s : string) : jsstring :=
  map N_of_ascii (list_ascii_of_string s).

Definition code_unit (u : N) : Prop := (u < 65536)%N.

Definition wf_jsstring (s : jsstring) : Prop := Forall code_unit s.

Definition ascii_only (s : jsstring) : Prop := Forall (fun u => u < 0x80)%N s.

Definition is_leading_surrogate (u : N) : bool := ((0xD800 <=? u) && (u <=? 0xDBFF))%N.
Definition is_trailing_surrogate (u : N) : bool := ((0xDC00 <=? u) && (u <=? 0xDFFF))%N.

(** ** Turn records

    [{ role, content: [{ type, text }] }].  [content] is optional because
    [countTokensInMessage] guards on [message.content && Array.isArray(...)]:
    [None] stands for a turn without a content array. *)

Record ContentPart : Type := mkPart { type : jsstring; text : jsstring }.

Record Message : Type := mkMessage {
  role : jsstring;
  content : option (list ContentPart)
}.

#[global] Instance ContentPart_eq_dec : EqDecision ContentPart.
Proof. solve_decision. Defined.

#[global] Instance Message_eq_dec : EqDecision Message.
Proof. solve_decision. Defined.

(** [const MAX_TOKENS = 900000;] *)
Definition MAX_TOKENS : Z := 900000.

(** ** Token counter and history trimmer (class [TeamsBot]) *)

Section Trimmer.

(** [this.encoder.encode]: the tiktoken encoder of the model, an external
    collaborator.  Only the number of tokens it returns is ever used. *)
Variable encode : jsstring -> list N.

(** [content.type === 'input_text' || content.type === 'output_text'] *)
Definition is_text_part (c : ContentPart) : bool :=
  bool_decide (type c = js "input_text") || bool_decide (type c = js "output_text").

(** One iteration of the [for (const content of message.content)] loop. *)
Definition count_part (tokenCount : Z) (c : ContentPart) : Z :=
  if is_text_part c
  then tokenCount + Z.of_nat (length (encode (text c)))
  else tokenCount.

Definition countTokensInMessage (message : Message) : Z :=
  match content message with
  | Some parts => fold_left count_part parts 0
  | None => 0
  end.

Definition countTokensInMessages (messages : list Message) : Z :=
  fold_left (fun totalTokens message => totalTokens + countTokensInMessage message)
            messages 0.

Definition countTokensInHistory (history : list Message) : Z :=
  countTokensInMessages history.

(** The [while] loop of [trimConversationToTokenLimit]:
    [while (systemTokens + userTokens + count(trimmedHistory) > MAX_TOKENS
            && trimmedHistory.length >= 2) trimmedHistory.splice(0, 2)]. *)
Fixpoint trim_loop (systemTokens userTokens : Z) (trimmedHistory : list Message)
  : list Message :=
  match trimmedHistory with
  | _ :: _ :: rest =>
      if systemTokens + userTokens + countTokensInHistory trimmedHistory >? MAX_TOKENS
      then trim_loop systemTokens userTokens rest
      else trimmedHistory
  | _ => trimmedHistory
  end.

Definition trimConversationToTokenLimit
    (history : list Message) (systemTokens userTokens : Z) : list Message :=
  if (length history =? 0)%nat then history
  else
    let currentHistoryTokens := countTokensInHistory history in
    let totalTokens := systemTokens + userTokens + currentHistoryTokens in
    if totalTokens <=? MAX_TOKENS then history
    else trim_loop systemTokens userTokens history.

(** The condition under which the final [console.warn] fires. *)
Definition stillOverLimit (history : list Message) (systemTokens userTokens : Z) : bool :=
  systemTokens + userTokens
    + countTokensInHistory (trimConversationToTokenLimit history systemTokens userTokens)
    >? MAX_TOKENS.

End Trimmer.

(** ** The trimmer on a store of arrays

    JavaScript arrays are heap objects: [history] is a reference, and
    [[...history]] allocates a fresh array that [splice] then mutates.  The
    store maps references to array contents. *)

Module Ref.

Abbreviation loc := positive (only parsing).
Abbreviation store := (gmap positive (list Message)) (only parsing).

Section WithEncoder.

Variable encode : jsstring -> list N.

(** The [while] loop acting on the array at [trimmedHistory];
    [splice(0, 2)] removes the two oldest turns in place.  Every
    iteration shortens the array, so [fuel] bounds the iterations. *)
Fixpoint trim_loop (fuel : nat) (sigma : store) (trimmedHistory : loc)
    (systemTokens userTokens : Z) : option store :=
  match sigma !! trimmedHistory with
  | None => None
  | Some arr =>
      if (systemTokens + userTokens + countTokensInHistory encode arr >? MAX_TOKENS)
         && (2 <=? length arr)%nat
      then match fuel with
           | O => None
           | S fuel' =>
               trim_loop fuel' (<[trimmedHistory := drop 2 arr]> sigma)
                         trimmedHistory systemTokens userTokens
           end
      else Some sigma
  end.

(** Returns the reference handed back to the caller and the final store;
    [None] only for a dangling [history]. *)
Definition trimConversationToTokenLimit (sigma : store) (history : loc)
    (systemTokens userTokens : Z) : option (loc * store) :=
  match sigma !! history with
  | None => None
  | Some h =>
      if (length h =? 0)%nat then Some (history, sigma)
      else
        let totalTokens := systemTokens + userTokens + countTokensInHistory encode h in
        if totalTokens <=? MAX_TOKENS then Some (history, sigma)
        else
          let trimmedHistory : loc := fresh (dom sigma) in
          let sigma1 := <[trimmedHistory := h]> sigma in
          match trim_loop (length h) sigma1 trimmedHistory systemTokens userTokens with
          | Some sigma2 => Some (trimmedHistory, sigma2)
          | None => None
          end
  end.

End WithEncoder.

End Ref.

(** ** Asynchronous results

    An [async] call either resolves with a value or rejects with an error. *)

Inductive outcome (A : Type) : Type :=
| Resolved (a : A)
| Rejected (error : jsstring).

Arguments Resolved {A} a.
Arguments Rejected {A} error.

Definition outcome_bind {A B : Type} (o : outcome A) (k : A -> outcome B) : outcome B :=
  match o with
  | Resolved a => k a
  | Rejected e => Rejected e
  end.

(** [try { body } catch (error) { handler }] around an asynchronous body. *)
Definition try_catch {A : Type} (body : outcome A) (handler : jsstring -> outcome A)
  : outcome A :=
  match body with
  | Resolved a => Resolved a
  | Rejected e => handler e
  end.

(** ** Disclaimer classifier ([taxDisclaimerClassifier.js]) *)

(** [CLASSIFICATION_LABELS] *)
Inductive ClassLabel : Type := NEEDS_DISCLAIMER | NO_DISCLAIMER_NEEDED.

#[global] Instance ClassLabel_eq_dec : EqDecision ClassLabel.
Proof. solve_decision. Defined.

(** [DisclaimerClassificationSchema] *)
Record DisclaimerClassification : Type := mkClassification {
  class_label : ClassLabel;
  explanation : jsstring
}.

Record ChatMessage : Type := mkChatMessage {
  chat_role : jsstring;
  chat_content : jsstring
}.

Record ClassificationRequest : Type := mkClassificationRequest {
  req_messages : list ChatMessage;
  req_model : jsstring;
  req_response_model_name : jsstring;
  req_max_retries : nat
}.

(** The client [Instructor({ client, mode })] returns: its
    [chat.completions.create] talks to the model, validates the answer
    against the schema and rejects when that fails. *)
Record InstructorClient : Type := mkInstructor {
  chat_completions_create : ClassificationRequest -> outcome DisclaimerClassification
}.

(** What the model call of the message handler answers (fields of the
    Responses API object the handler reads). *)
Record OutputItem : Type := mkOutputItem {
  item_type : jsstring;
  item_content : list ContentPart
}.

Record ModelResponse : Type := mkResponse {
  output_text : jsstring;
  output : list OutputItem
}.

(** The OpenAI client is external: it is represented by what its two uses
    answer, [Instructor({ client: openaiClient, mode })] and
    [openai.responses.create({ input: messages, ... })]. *)
Record OpenAIClient : Type := mkOpenAI {
  Instructor : jsstring -> outcome InstructorClient;
  responses_create : list Message -> outcome ModelResponse
}.

Definition classification_prompt (text : jsstring) : jsstring :=
  ([10]
  ++ js "    Analyze the following tax assistant response and determine if "
  ++ js "it needs a tax disclaimer."
  ++ [10]
  ++ js "    "
  ++ [10]
  ++ js "    Apply these rules:"
  ++ [10]
  ++ js "    1. If the response contains specific tax advice, calculations, "
  ++ js "or references to tax laws/codes, it NEEDS_DISCLAIMER"
  ++ [10]
  ++ js "    2. If the response interprets tax regulations or suggests "
  ++ js "specific actions related to taxes, it NEEDS_DISCLAIMER"
  ++ [10]
  ++ js "    3. If the response provides numbers, percentages, or dollar "
  ++ js "amounts related to taxes, it NEEDS_DISCLAIMER"
  ++ [10]
  ++ js "    4. If the response recommends filing methods or specific forms, "
  ++ js "it NEEDS_DISCLAIMER"
  ++ [10]
  ++ js "    5. If the response references or cites information from the "
  ++ js "U.S. Tax Code, it NEEDS_DISCLAIMER"
  ++ [10]
  ++ js "    6. If the response provides factual information that would "
  ++ js "typically be sourced from the internet (such as statistics, dates, "
  ++ js "rates, or formal definitions), it NEEDS_DISCLAIMER"
  ++ [10]
  ++ js "    7. If the response discusses economic policies, market trends, "
  ++ js "or business regulations, even if not directly tax-related, it "
  ++ js "NEEDS_DISCLAIMER"
  ++ [10]
  ++ js "    8. If the response is general conversation, greetings, or "
  ++ js "clarification questions without factual content, it does NOT need a "
  ++ js "disclaimer"
  ++ [10]
  ++ js "    "
  ++ [10]
  ++ js "    Response to analyze:"
  ++ [10]
  ++ js "    "
  ++ text
  ++ [10]
  ++ js "    ")%N.

Definition classification_failed : DisclaimerClassification :=
  {| class_label := NEEDS_DISCLAIMER;
     explanation := js "Classification failed, defaulting to showing disclaimer for safety" |}.

(** The body of the [try] block. *)
Definition classify_attempt (openaiClient : OpenAIClient) (text : jsstring)
  : outcome DisclaimerClassification :=
  outcome_bind (Instructor openaiClient (js "TOOLS")) (fun instructor =>
    let prompt := classification_prompt text in
    chat_completions_create instructor
      {| req_messages := [ {| chat_role := js "user"; chat_content := prompt |} ];
         req_model := js "gpt-4.1-mini";
         req_response_model_name := js "DisclaimerClassification";
         req_max_retries := 2 |}).

Definition classifyTextForDisclaimer (openaiClient : OpenAIClient) (text : jsstring)
  : outcome DisclaimerClassification :=
  try_catch (classify_attempt openaiClient text)
            (fun error => Resolved classification_failed).

(** ** JSON text ([JSON.stringify], [JSON.parse]) *)

Section JsonText.

Local Open Scope N_scope.

Unset Elimination Schemes.
Inductive json : Type :=
| JNull
| JBool (b : bool)
| JNum (literal : jsstring)
| JStr (s : jsstring)
| JArr (items : list json)
| JObj (members : list (jsstring * json)).
Set Elimination Schemes.

(** *** JSON.stringify *)

Definition hex_digit (d : N) : N := if d <? 10 then 48 + d else 87 + d.

(** [UnicodeEscape]: backslash, [u] and four lowercase hexadecimal digits. *)
Definition unicode_escape (u : N) : jsstring :=
  [92; 117; hex_digit (u / 4096 mod 16); hex_digit (u / 256 mod 16);
   hex_digit (u / 16 mod 16); hex_digit (u mod 16)].


(** The escape of a single code unit that is not half of a surrogate pair. *)
Definition quote_unit (u : N) : jsstring :=
  if u =? 8 then [92; 98]
  else if u =? 9 then [92; 116]
  else if u =? 10 then [92; 110]
  else if u =? 12 then [92; 102]
  else if u =? 13 then [92; 114]
  else if u =? 34 then [92; 34]
  else if u =? 92 then [92; 92]
  else if (u <? 32) || is_leading_surrogate u || is_trailing_surrogate u
       then unicode_escape u
  else [u].

Fixpoint quote_body (s : jsstring) : jsstring :=
  match s with
  | [] => []
  | u :: rest =>
      match rest with
      | v :: rest' =>
          if is_leading_surrogate u && is_trailing_surrogate v
          then u :: v :: quote_body rest'
          else quote_unit u ++ quote_body rest
      | [] => quote_unit u
      end
  end.

Definition QuoteJSONString (s : jsstring) : jsstring := [34] ++ quote_body s ++ [34].

Fixpoint join_comma (pieces : list jsstring) : jsstring :=
  match pieces with
  | [] => []
  | [p] => p
  | p :: more => p ++ [44] ++ join_comma more
  end.

Fixpoint JSON_stringify (v : json) : jsstring :=
  match v with
  | JNull => js "null"
  | JBool true => js "true"
  | JBool false => js "false"
  | JNum literal => literal
  | JStr s => QuoteJSONString s
  | JArr items => [91] ++ join_comma (map JSON_stringify items) ++ [93]
  | JObj members =>
      [123] ++ join_comma (map (fun kv => QuoteJSONString (fst kv) ++ [58] ++ JSON_stringify (snd kv))
                               members) ++ [125]
  end.

(** *** JSON.parse: lexer *)

Inductive token : Type :=
| TLBracket | TRBracket | TLBrace | TRBrace | TColon | TComma
| TString (s : jsstring)
| TNumber (literal : jsstring)
| TTrue | TFalse | TNull.

Definition hex_value (c : N) : option N :=
  if (48 <=? c) && (c <=? 57) then Some (c - 48)
  else if (97 <=? c) && (c <=? 102) then Some (c - 87)
  else if (65 <=? c) && (c <=? 70) then Some (c - 55)
  else None.

Definition is_digit (c : N) : bool := (48 <=? c) && (c <=? 57).

Definition is_whitespace (c : N) : bool :=
  (c =? 32) || (c =? 9) || (c =? 10) || (c =? 13).

(** Characters of literals and numbers. *)
Definition is_word_char (c : N) : bool :=
  is_digit c || ((97 <=? c) && (c <=? 122)) || (c =? 69) || (c =? 43) || (c =? 45) || (c =? 46).

Fixpoint skip_digits (s : jsstring) : jsstring :=
  match s with
  | c :: rest => if is_digit c then skip_digits rest else s
  | [] => []
  end.

Definition starts_with_digit (s : jsstring) : bool :=
  match s with c :: _ => is_digit c | [] => false end.

(** The JSON number grammar: an optional minus sign; a zero or a digit
    sequence without leading zero; an optional fraction; an optional
    exponent. *)
Definition number_exponent (s : jsstring) : bool :=
  match s with
  | [] => true
  | c :: rest =>
      if (c =? 101) || (c =? 69) then
        let rest' := match rest with
                     | d :: r => if (d =? 43) || (d =? 45) then r else rest
                     | [] => rest
                     end in
        starts_with_digit rest' && bool_decide (skip_digits rest' = [])
      else false
  end.

Definition number_fraction (s : jsstring) : bool :=
  match s with
  | 46 :: rest => starts_with_digit rest && number_exponent (skip_digits rest)
  | _ => number_exponent s
  end.

Definition number_integer (s : jsstring) : bool :=
  match s with
  | 48 :: rest => number_fraction rest
  | c :: rest => is_digit c && number_fraction (skip_digits rest)
  | [] => false
  end.

Definition is_number_literal (s : jsstring) : bool :=
  match s with
  | 45 :: rest => number_integer rest
  | _ => number_integer s
  end.

Definition word_token (w : jsstring) : option token :=
  if bool_decide (w = js "true") then Some TTrue
  else if bool_decide (w = js "false") then Some TFalse
  else if bool_decide (w = js "null") then Some TNull
  else if is_number_literal w then Some (TNumber w)
  else None.

Inductive lex_state : Type :=
| LxStart
| LxString (acc : jsstring)
| LxEscape (acc : jsstring)
| LxUnicode (acc : jsstring) (value : N) (remaining : nat)
| LxWord (acc : jsstring).

Definition punctuation (c : N) : option token :=
  if c =? 91 then Some TLBracket
  else if c =? 93 then Some TRBracket
  else if c =? 123 then Some TLBrace
  else if c =? 125 then Some TRBrace
  else if c =? 58 then Some TColon
  else if c =? 44 then Some TComma
  else None.

Definition escape_char (c : N) : option N :=
  if c =? 34 then Some 34
  else if c =? 92 then Some 92
  else if c =? 47 then Some 47
  else if c =? 98 then Some 8
  else if c =? 102 then Some 12
  else if c =? 110 then Some 10
  else if c =? 114 then Some 13
  else if c =? 116 then Some 9
  else None.

(** What a character does outside of strings and words. *)
Definition lex_start (c : N) (continue : lex_state -> option (list token))
  : option (list token) :=
  if is_whitespace c then continue LxStart
  else if c =? 34 then continue (LxString [])
  else match punctuation c with
       | Some t => cons t <$> continue LxStart
       | None => if is_word_char c then continue (LxWord [c]) else None
       end.

Fixpoint lex (st : lex_state) (input : jsstring) : option (list token) :=
  match input with
  | [] =>
      match st with
      | LxStart => Some []
      | LxWord acc => t ← word_token (rev acc); Some [t]
      | _ => None
      end
  | c :: rest =>
      match st with
      | LxStart => lex_start c (fun st' => lex st' rest)
      | LxString acc =>
          if c =? 34 then cons (TString (rev acc)) <$> lex LxStart rest
          else if c =? 92 then lex (LxEscape acc) rest
          else if c <? 32 then None
          else lex (LxString (c :: acc)) rest
      | LxEscape acc =>
          if c =? 117 then lex (LxUnicode acc 0 4) rest
          else match escape_char c with
               | Some u => lex (LxString (u :: acc)) rest
               | None => None
               end
      | LxUnicode acc value remaining =>
          match hex_value c with
          | None => None
          | Some d =>
              match remaining with
              | 1%nat => lex (LxString ((value * 16 + d) :: acc)) rest
              | S k => lex (LxUnicode acc (value * 16 + d) k) rest
              | O => None
              end
          end
      | LxWord acc =>
          if is_word_char c then lex (LxWord (c :: acc)) rest
          else t ← word_token (rev acc); cons t <$> lex_start c (fun st' => lex st' rest)
      end
  end.

(** *** JSON.parse: parser *)

Inductive frame : Type :=
| FArr (items_rev : list json)
| FObj (members_rev : list (jsstring * json))
| FKey (members_rev : list (jsstring * json)) (key : jsstring).

Inductive parse_state : Type :=
| ExpValue (stack : list frame)
| ExpValueOrClose (stack : list frame)
| ExpKeyOrClose (stack : list frame)
| ExpKey (stack : list frame)
| ExpColon (stack : list frame)
| ExpCommaOrClose (stack : list frame)
| Finished (v : json).

(** A repeated key keeps its place and takes the later value. *)
Definition add_member (k : jsstring) (v : json) (members_rev : list (jsstring * json))
  : list (jsstring * json) :=
  if bool_decide (k ∈ members_rev.*1)
  then map (fun kv => if bool_decide (fst kv = k) then (k, v) else kv) members_rev
  else (k, v) :: members_rev.

Definition deliver (v : json) (stack : list frame) : option parse_state :=
  match stack with
  | [] => Some (Finished v)
  | FArr items_rev :: below => Some (ExpCommaOrClose (FArr (v :: items_rev) :: below))
  | FKey members_rev key :: below =>
      Some (ExpCommaOrClose (FObj (add_member key v members_rev) :: below))
  | FObj _ :: _ => None
  end.

Definition parse_value (t : token) (stack : list frame) : option parse_state :=
  match t with
  | TLBracket => Some (ExpValueOrClose (FArr [] :: stack))
  | TLBrace => Some (ExpKeyOrClose (FObj [] :: stack))
  | TString s => deliver (JStr s) stack
  | TNumber literal => deliver (JNum literal) stack
  | TTrue => deliver (JBool true) stack
  | TFalse => deliver (JBool false) stack
  | TNull => deliver JNull stack
  | TRBracket | TRBrace | TColon | TComma => None
  end.

Definition parse_step (st : parse_state) (t : token) : option parse_state :=
  match st with
  | ExpValue stack => parse_value t stack
  | ExpValueOrClose stack =>
      match t, stack with
      | TRBracket, FArr items_rev :: below => deliver (JArr (rev items_rev)) below
      | _, _ => parse_value t stack
      end
  | ExpKeyOrClose stack =>
      match t, stack with
      | TString key, FObj members_rev :: below => Some (ExpColon (FKey members_rev key :: below))
      | TRBrace, FObj members_rev :: below => deliver (JObj (rev members_rev)) below
      | _, _ => None
      end
  | ExpKey stack =>
      match t, stack with
      | TString key, FObj members_rev :: below => Some (ExpColon (FKey members_rev key :: below))
      | _, _ => None
      end
  | ExpColon stack =>
      match t with
      | TColon => Some (ExpValue stack)
      | _ => None
      end
  | ExpCommaOrClose stack =>
      match t, stack with
      | TComma, FArr _ :: _ => Some (ExpValue stack)
      | TRBracket, FArr items_rev :: below => deliver (JArr (rev items_rev)) below
      | TComma, FObj _ :: _ => Some (ExpKey stack)
      | TRBrace, FObj members_rev :: below => deliver (JObj (rev members_rev)) below
      | _, _ => None
      end
  | Finished _ => None
  end.

Fixpoint parse_tokens (st : parse_state) (ts : list token) : option json :=
  match ts with
  | [] => match st with Finished v => Some v | _ => None end
  | t :: rest => st' ← parse_step st t; parse_tokens st' rest
  end.

(** [None] stands for the [SyntaxError] that [JSON.parse] throws. *)
Definition JSON_parse (text : jsstring) : option json :=
  ts ← lex LxStart text; parse_tokens (ExpValue []) ts.

(** Handing a finished value to the enclosing frame and going on. *)
Definition resume (v : json) (stack : list frame) (rest : list token) : option json :=
  st' ← deliver v stack; parse_tokens st' rest.


(** The token sequence of a value. *)
Fixpoint join_tokens (pieces : list (list token)) : list token :=
  match pieces with
  | [] => []
  | [p] => p
  | p :: more => p ++ [TComma] ++ join_tokens more
  end.

Fixpoint tokens_of (v : json) : list token :=
  match v with
  | JNull => [TNull]
  | JBool true => [TTrue]
  | JBool false => [TFalse]
  | JNum literal => [TNumber literal]
  | JStr s => [TString s]
  | JArr items => [TLBracket] ++ join_tokens (map tokens_of items) ++ [TRBracket]
  | JObj members =>
      [TLBrace] ++ join_tokens (map (fun kv => [TString (fst kv); TColon] ++ tokens_of (snd kv))
                                    members) ++ [TRBrace]
  end.

(** Values made of strings, arrays and objects with distinct keys: the
    shape of every persisted history. *)
Fixpoint text_json (v : json) : Prop :=
  match v with
  | JStr _ => True
  | JArr items => foldr (fun item P => text_json item /\ P) True items
  | JObj members =>
      NoDup members.*1 /\ foldr (fun kv P => text_json (snd kv) /\ P) True members
  | JNull | JBool _ | JNum _ => False
  end.

(** Every string of the value is a sequence of 16-bit code units. *)
Fixpoint utf16_json (v : json) : Prop :=
  match v with
  | JStr s => wf_jsstring s
  | JArr items => foldr (fun item P => utf16_json item /\ P) True items
  | JObj members =>
      foldr (fun kv P => (wf_jsstring (fst kv) /\ utf16_json (snd kv)) /\ P) True members
  | JNum literal => ascii_only literal
  | JNull | JBool _ => True
  end.

Section JsonInduction.
Variable P : json -> Prop.
Hypothesis Hnull : P JNull.
Hypothesis Hbool : forall b, P (JBool b).
Hypothesis Hnum : forall l, P (JNum l).
Hypothesis Hstr : forall s, P (JStr s).
Hypothesis Harr : forall items, Forall P items -> P (JArr items).
Hypothesis Hobj : forall members, Forall (fun kv => P (snd kv)) members -> P (JObj members).

Fixpoint json_ind (v : json) : P v :=
  match v with
  | JNull => Hnull
  | JBool b => Hbool b
  | JNum l => Hnum l
  | JStr s => Hstr s
  | JArr items =>
      Harr items ((fix all (l : list json) : Forall P l :=
                     match l with
                     | [] => Forall_nil_2 P
                     | x :: l' => Forall_cons_2 P x l' (json_ind x) (all l')
                     end) items)
  | JObj members =>
      Hobj members ((fix all (l : list (jsstring * json)) : Forall (fun kv => P (snd kv)) l :=
                       match l with
                       | [] => Forall_nil_2 _
                       | x :: l' => Forall_cons_2 _ x l' (json_ind (snd x)) (all l')
                       end) members)
  end.
End JsonInduction.


End JsonText.

Section Utf8.

Local Open Scope N_scope.

(** *** UTF-8, as [fs.writeFileSync(path, string)] and
    [Buffer.toString('utf8')] apply it *)

Definition replacement : list N := [0xEF; 0xBF; 0xBD].

(** The bytes of one code unit that is not part of a surrogate pair. *)
Definition utf8_unit (u : N) : list N :=
  if u <? 0x80 then [u]
  else if u <? 0x800 then [0xC0 + u / 64; 0x80 + u mod 64]
  else if is_leading_surrogate u || is_trailing_surrogate u then replacement
  else [0xE0 + u / 4096; 0x80 + u / 64 mod 64; 0x80 + u mod 64].

(** The four bytes of the code point of a surrogate pair. *)
Definition utf8_pair (hi lo : N) : list N :=
  let cp := 0x10000 + (hi - 0xD800) * 1024 + (lo - 0xDC00) in
  [0xF0 + cp / 262144; 0x80 + cp / 4096 mod 64; 0x80 + cp / 64 mod 64; 0x80 + cp mod 64].

Fixpoint utf8_encode (s : jsstring) : list N :=
  match s with
  | [] => []
  | u :: rest =>
      match rest with
      | v :: rest' =>
          if is_leading_surrogate u && is_trailing_surrogate v
          then utf8_pair u v ++ utf8_encode rest'
          else utf8_unit u ++ utf8_encode rest
      | [] => utf8_unit u
      end
  end.

(** The decoder is the state machine of the Encoding Standard: a malformed
    sequence yields U+FFFD and decoding resumes at the offending byte. *)
Record utf8_state : Type := mkUtf8 {
  code_point : N;
  bytes_needed : nat;
  lower_boundary : N;
  upper_boundary : N
}.

Definition utf8_initial : utf8_state := mkUtf8 0 0 0x80 0xBF.

Definition emit_code_point (cp : N) : jsstring :=
  if cp <? 0x10000 then [cp]
  else [0xD800 + (cp - 0x10000) / 1024; 0xDC00 + (cp - 0x10000) mod 1024].

Definition utf8_lead (b : N) : jsstring * utf8_state :=
  if b <? 0x80 then ([b], utf8_initial)
  else if (0xC2 <=? b) && (b <=? 0xDF) then ([], mkUtf8 (b - 0xC0) 1 0x80 0xBF)
  else if (0xE0 <=? b) && (b <=? 0xEF)
       then ([], mkUtf8 (b - 0xE0) 2 (if b =? 0xE0 then 0xA0 else 0x80)
                        (if b =? 0xED then 0x9F else 0xBF))
  else if (0xF0 <=? b) && (b <=? 0xF4)
       then ([], mkUtf8 (b - 0xF0) 3 (if b =? 0xF0 then 0x90 else 0x80)
                        (if b =? 0xF4 then 0x8F else 0xBF))
  else ([0xFFFD], utf8_initial).

Definition utf8_step (st : utf8_state) (b : N) : jsstring * utf8_state :=
  match bytes_needed st with
  | O => utf8_lead b
  | S k =>
      if (lower_boundary st <=? b) && (b <=? upper_boundary st)
      then
        let cp := code_point st * 64 + (b - 0x80) in
        match k with
        | O => (emit_code_point cp, utf8_initial)
        | S _ => ([], mkUtf8 cp k 0x80 0xBF)
        end
      else
        let '(out, st') := utf8_lead b in (0xFFFD :: out, st')
  end.

Fixpoint utf8_decode_from (st : utf8_state) (bytes : list N) : jsstring :=
  match bytes with
  | [] => match bytes_needed st with O => [] | S _ => [0xFFFD] end
  | b :: rest => let '(out, st') := utf8_step st b in out ++ utf8_decode_from st' rest
  end.

Definition utf8_decode (bytes : list N) : jsstring := utf8_decode_from utf8_initial bytes.

(** No lone surrogates, every unit below 2^16. *)
Fixpoint well_formed_utf16 (s : jsstring) : bool :=
  match s with
  | [] => true
  | u :: rest =>
      if is_leading_surrogate u
      then match rest with
           | v :: rest' => is_trailing_surrogate v && well_formed_utf16 rest'
           | [] => false
           end
      else (u <? 0x10000) && negb (is_trailing_surrogate u) && well_formed_utf16 rest
  end.


End Utf8.

(** ** Persisted history format

    [[{ "role": ..., "content": [{ "type": ..., "text": ... }] }, ...]]: the
    JSON value that [JSON.stringify(history)] serialises, properties in the
    order in which the handler creates them. *)

Definition part_to_json (c : ContentPart) : json :=
  JObj [(js "type", JStr (type c)); (js "text", JStr (text c))].

Definition message_to_json (m : Message) : json :=
  JObj ((js "role", JStr (role m))
        :: match content m with
           | Some parts => [(js "content", JArr (map part_to_json parts))]
           | None => []
           end).

Definition history_to_json (history : list Message) : json :=
  JArr (map message_to_json history).

(** Reading a JSON value back as turn records; [None] when the value is
    not the image of a history. *)
Definition part_of_json (v : json) : option ContentPart :=
  match v with
  | JObj [(k1, JStr t); (k2, JStr x)] =>
      if bool_decide (k1 = js "type") && bool_decide (k2 = js "text")
      then Some (mkPart t x) else None
  | _ => None
  end.

Definition message_of_json (v : json) : option Message :=
  match v with
  | JObj [(k1, JStr r)] =>
      if bool_decide (k1 = js "role") then Some (mkMessage r None) else None
  | JObj [(k1, JStr r); (k2, JArr parts)] =>
      if bool_decide (k1 = js "role") && bool_decide (k2 = js "content")
      then parts' ← mapM part_of_json parts; Some (mkMessage r (Some parts'))
      else None
  | _ => None
  end.

Definition history_of_json (v : json) : option (list Message) :=
  match v with
  | JArr items => mapM message_of_json items
  | _ => None
  end.

(** Histories whose strings are JavaScript strings. *)
Definition wf_part (c : ContentPart) : Prop :=
  wf_jsstring (type c) /\ wf_jsstring (text c).

Definition wf_message (m : Message) : Prop :=
  wf_jsstring (role m)
  /\ match content m with Some parts => Forall wf_part parts | None => True end.

Definition wf_history (history : list Message) : Prop := Forall wf_message history.

(** ** Storage service ([storageService.js]) *)

(** The parts of [process.env], [__dirname] and [os.tmpdir()] the service
    reads. *)
Record ProcessEnv : Type := mkEnv {
  USE_LOCAL_STORAGE : bool;   (* process.env.USE_LOCAL_STORAGE === 'true' *)
  RUNNING_ON_AZURE : bool;    (* process.env.RUNNING_ON_AZURE === '1' *)
  dirname : jsstring;
  tmpdir : jsstring
}.

(** What the platform does during one call of the service: whether
    directories exist or can be made, whether the Azure client connects
    (the [try] block of [initialize] runs to its end), and whether the file
    or blob operation of the call succeeds or throws. *)
Record Platform : Type := mkPlatform {
  dir_exists : jsstring -> bool;
  mkdir_ok : jsstring -> bool;
  cloud_connects : bool;
  write_ok : bool;
  read_ok : bool;
  delete_ok : bool
}.

Record StorageService : Type := mkService {
  initialized : bool;
  useLocalStorage : bool;
  localStoragePath : jsstring
}.

(** File and blob bodies, as bytes. *)
Record Persistent : Type := mkPersistent {
  files : gmap jsstring (list N);
  blobs : gmap jsstring (list N)
}.

(** [path.join(a, b)], without normalisation. *)
Definition path_join (a b : jsstring) : jsstring := a ++ js "/" ++ b.

Definition azure_path : jsstring :=
  path_join (path_join (path_join (js "D:") (js "home")) (js "LogFiles"))
            (js "conversation-history").

Definition fallback_path : jsstring :=
  path_join (path_join (path_join (path_join (js "C:") (js "home")) (js "site"))
                       (js "wwwroot")) (js "data").

Definition initializeLocalStorage (io : Platform) (env : ProcessEnv) (s : StorageService)
  : StorageService * outcome unit :=
  if negb (dir_exists io (localStoragePath s)) then
    if mkdir_ok io (localStoragePath s) then (s, Resolved tt)
    else (* catch (error) *)
      if RUNNING_ON_AZURE env then
        let s1 := mkService (initialized s) (useLocalStorage s) fallback_path in
        if mkdir_ok io (localStoragePath s1) then (s1, Resolved tt)
        else (* catch (fallbackError) *)
          let s2 := mkService (initialized s) (useLocalStorage s)
                              (path_join (tmpdir env) (js "tax-bot-history")) in
          if mkdir_ok io (localStoragePath s2) then (s2, Resolved tt)
          else (s2, Rejected (js "mkdirSync"))
      else (s, Resolved tt)
  else (s, Resolved tt).

(** [constructor()] *)
Definition newStorageService (io : Platform) (env : ProcessEnv)
  : StorageService * outcome unit :=
  let s := mkService false (USE_LOCAL_STORAGE env)
                     (if RUNNING_ON_AZURE env then azure_path
                      else path_join (dirname env) (js "history")) in
  if useLocalStorage s then initializeLocalStorage io env s else (s, Resolved tt).

Definition initialize (io : Platform) (env : ProcessEnv) (s : StorageService)
  : StorageService * outcome unit :=
  if initialized s then (s, Resolved tt)
  else if useLocalStorage s then (mkService true true (localStoragePath s), Resolved tt)
  else if cloud_connects io then (mkService true false (localStoragePath s), Resolved tt)
  else (* catch (error): fall back to local storage *)
    initializeLocalStorage io env (mkService true true (localStoragePath s)).

(** [blockBlobClient.upload(body, contentLength)]: the request announces
    [contentLength] bytes, and that many bytes of the UTF-8 body make up the
    blob (the SDK documents the argument as the length of the body in
    bytes). *)
Definition blob_upload (body : jsstring) (contentLength : nat) : list N :=
  take contentLength (utf8_encode body).

Definition storage_key (conversationId : jsstring) : jsstring :=
  conversationId ++ js ".json".

Definition saveConversationHistory (io : Platform) (env : ProcessEnv)
    (st : StorageService * Persistent) (conversationId : jsstring) (history : list Message)
  : (StorageService * Persistent) * outcome unit :=
  let '(s0, d) := st in
  let '(s, r) := initialize io env s0 in
  match r with
  | Rejected e => ((s, d), Rejected e)
  | Resolved _ =>
      (* try *)
      let content := JSON_stringify (history_to_json history) in
      if useLocalStorage s then
        let filePath := path_join (localStoragePath s) (storage_key conversationId) in
        if write_ok io
        then ((s, mkPersistent (<[filePath := utf8_encode content]> (files d)) (blobs d)),
              Resolved tt)
        else (* catch (error) *) ((s, d), Resolved tt)
      else
        let blobName := storage_key conversationId in
        if write_ok io
        then ((s, mkPersistent (files d)
                               (<[blobName := blob_upload content (length content)]> (blobs d))),
              Resolved tt)
        else (* catch (error) *) ((s, d), Resolved tt)
  end.

(** [content ? JSON.parse(content) : []] *)
Definition parse_content (content : option jsstring) : outcome json :=
  match content with
  | None | Some [] => Resolved (JArr [])
  | Some text =>
      match JSON_parse text with
      | Some v => Resolved v
      | None => Rejected (js "SyntaxError")
      end
  end.

(** The reads of the [try] block: [content] stays [undefined] when nothing
    is stored. *)
Definition read_content (io : Platform) (s : StorageService) (d : Persistent)
    (conversationId : jsstring) : outcome (option jsstring) :=
  if useLocalStorage s then
    let filePath := path_join (localStoragePath s) (storage_key conversationId) in
    match files d !! filePath with
    | Some bytes =>
        if read_ok io then Resolved (Some (utf8_decode bytes))
        else Rejected (js "readFileSync")
    | None => Resolved None
    end
  else
    let blobName := storage_key conversationId in
    if read_ok io then Resolved (utf8_decode <$> blobs d !! blobName)
    else Rejected (js "download").

Definition loadConversationHistory (io : Platform) (env : ProcessEnv)
    (st : StorageService * Persistent) (conversationId : jsstring)
  : (StorageService * Persistent) * outcome json :=
  let '(s0, d) := st in
  let '(s, r) := initialize io env s0 in
  match r with
  | Rejected e => ((s, d), Rejected e)
  | Resolved _ =>
      ((s, d),
       try_catch (outcome_bind (read_content io s d conversationId) parse_content)
                 (fun error => Resolved (JArr [])))
  end.

Definition deleteConversationHistory (io : Platform) (env : ProcessEnv)
    (st : StorageService * Persistent) (conversationId : jsstring)
  : (StorageService * Persistent) * outcome unit :=
  let '(s0, d) := st in
  let '(s, r) := initialize io env s0 in
  match r with
  | Rejected e => ((s, d), Rejected e)
  | Resolved _ =>
      (* try *)
      if useLocalStorage s then
        let filePath := path_join (localStoragePath s) (storage_key conversationId) in
        match files d !! filePath with
        | Some _ =>
            if delete_ok io
            then ((s, mkPersistent (delete filePath (files d)) (blobs d)), Resolved tt)
            else (* catch (error) *) ((s, d), Resolved tt)
        | None => ((s, d), Resolved tt)
        end
      else
        let blobName := storage_key conversationId in
        if delete_ok io
        then ((s, mkPersistent (files d) (delete blobName (blobs d))), Resolved tt)
        else (* catch (error) *) ((s, d), Resolved tt)
  end.

(** What is stored for a conversation, in the backend the service uses. *)
Definition stored (s : StorageService) (d : Persistent) (conversationId : jsstring)
  : option (list N) :=
  if useLocalStorage s
  then files d !! path_join (localStoragePath s) (storage_key conversationId)
  else blobs d !! storage_key conversationId.

(** ** Message handler ([TeamsBot], [this.onMessage]) *)

Inductive Activity : Type :=
| Typing                          (* { type: 'typing' } *)
| TextActivity (body : jsstring).

(** Everything a turn can read or change: the conversation state held by
    [MemoryStorage] (property [conversationHistory], per conversation, as
    last committed by [saveChanges]), the storage service and what it
    persists, and the activities sent so far. *)
Record BotWorld : Type := mkWorld {
  memory : gmap jsstring (list Message);
  service : StorageService;
  persistent : Persistent;
  sent : list Activity
}.

(** What the outside answers during one turn. *)
Record TurnEnv : Type := mkTurnEnv {
  process_env : ProcessEnv;
  openai : OpenAIClient;
  formattedDate : jsstring;       (* currentDate.toLocaleString('en-US', ...) *)
  io_delete : Platform;
  io_load : Platform;
  io_save : Platform
}.

Section Strings.

Local Open Scope N_scope.

Definition standardDisclaimer : jsstring :=
  js "**DISCLAIMER:** U.S. Tax Assistant provides general tax information "
  ++ js "and guidance only. The information provided is not legal or tax "
  ++ js "advice, and should not be relied upon as such. Tax laws are complex "
  ++ js "and subject to change. While we strive for accuracy, this bot may "
  ++ js "not account for your specific circumstances, recent tax law "
  ++ js "changes, or uncommon tax situations. Always verify information with "
  ++ js "the official IRS resources or consult with a qualified tax "
  ++ js "professional before making financial decisions or tax filings. Jake "
  ++ js "Campbell, the creator of this bot, is not responsible for any "
  ++ js "actions taken based on the information provided.".

Definition shortDisclaimer : jsstring :=
  [10; 10]
  ++ js "---"
  ++ [10]
  ++ js "*Note: This is not professional tax advice. Please verify all "
  ++ js "information provided.*".

(** The template literal assigned to [this.systemMessage]. *)
Definition systemMessage (formattedDate : jsstring) : jsstring :=
  js "Today's date is "
  ++ formattedDate
  ++ js "."
  ++ [10; 10]
  ++ js "You are U.S. Tax Assistant. Your mission is to assist users with "
  ++ js "their tax-related questions using expert guidance on U.S. federal "
  ++ js "and state tax information. You'll handle different tax-related "
  ++ js "tasks and user queries as follows:"
  ++ [10; 10]
  ++ js "- Explain specific tax regulations and their application."
  ++ [10]
  ++ js "- Assist in selecting the correct tax forms."
  ++ [10]
  ++ js "- Provide advice on deductions, credits, and filing status."
  ++ [10]
  ++ js "- Answer common tax questions."
  ++ [10]
  ++ js "- Direct users to additional resources for complex issues."
  ++ [10]
  ++ js "- Serve individual taxpayers, small business owners, and tax "
  ++ js "professionals."
  ++ [10]
  ++ js "- Offer a quick reference to tax codes and regulations."
  ++ [10; 10]
  ++ js "You have been provided with the entire U.S. Tax Code (Title 26"
  ++ [8212]
  ++ js "Internal Revenue Code) to use with your retrieval tool. As a "
  ++ js "result, you're knowledgeable about the complete U.S. Tax Code, and "
  ++ js "can clarify misunderstandings by referencing it and offering "
  ++ js "examples. For intricate issues, suggest seeking professional advice."
  ++ [10; 10]
  ++ js "**Note:** Users cannot upload documents, and any document access is "
  ++ js "based on databases or sources available to you, not user-uploaded "
  ++ js "content."
  ++ [10; 10]
  ++ js "If you cannot find information in the Title 26"
  ++ [8212]
  ++ js "Internal Revenue Code, or if the user mentions any material outside "
  ++ js "the U.S. Tax Code, you can search the internet. Start by "
  ++ js "referencing primary sources such as the IRS website and official "
  ++ js "documents from the IRS for federal tax information. For state laws, "
  ++ js "court decisions, and other tax document information, use the "
  ++ js "internet. Refer to reputable secondary sources and avoid blog sites "
  ++ js "and forums like Reddit. If the internet is not available to you, or "
  ++ js "you are confused by the user's request, inform the user that you "
  ++ js "cannot find the information in the U.S. Tax Code."
  ++ [10]
  ++ js "IMPORTANT: Always be sure to cite where you found all information "
  ++ js "if you accessed any files via the retrieval tool or used the "
  ++ js "internet. Do not mention any files the user uploaded. When "
  ++ js "introducing yourself, make sure to omit any comments about files "
  ++ js "that the user uploaded or that you cannot access them.".

Definition apology : jsstring :=
  js "I'm sorry, I'm having trouble processing your request. Please try again later.".

(** [txt.toLowerCase()]; only the ASCII letters matter for the comparison
    with ['/restart'], whose letters no other character lowercases to. *)
Definition toLowerCase (s : jsstring) : jsstring :=
  map (fun u => if (65 <=? u) && (u <=? 90) then u + 32 else u) s.

End Strings.

Definition send (a : Activity) (w : BotWorld) : BotWorld :=
  mkWorld (memory w) (service w) (persistent w) (sent w ++ [a]).

Definition user_turn (txt : jsstring) : Message :=
  mkMessage (js "user") (Some [mkPart (js "input_text") txt]).

Definition assistant_turn (botResponseText : jsstring) : Message :=
  mkMessage (js "assistant") (Some [mkPart (js "output_text") botResponseText]).

Definition system_turn (message : jsstring) : Message :=
  mkMessage (js "system") (Some [mkPart (js "input_text") message]).

Definition nonempty {A : Type} (l : list A) : bool :=
  match l with [] => false | _ :: _ => true end.

(** The [if (response.output_text) ... else ...] cascade. *)
Definition response_text (response : ModelResponse) : jsstring :=
  if nonempty (output_text response) then output_text response
  else if nonempty (output response) then
    match find (fun item => bool_decide (item_type item = js "message")) (output response) with
    | Some messageOutput =>
        if nonempty (item_content messageOutput) then
          match find (fun item => bool_decide (type item = js "output_text"))
                     (item_content messageOutput) with
          | Some textContent =>
              if nonempty (text textContent) then text textContent
              else js "I processed your request but couldn't format the response properly."
          | None => js "I processed your request but couldn't format the response properly."
          end
        else js "I processed your request but couldn't find a message in the response."
    | None => js "I processed your request but couldn't find a message in the response."
    end
  else js "I processed your request, but had trouble formatting the response.".

(** The conversation state of one turn.  [ConversationState] reads the
    stored state into the turn context on first access; the property
    accessor reads and writes that cached copy, and only [saveChanges]
    writes it back to [MemoryStorage].  [None]: nothing read yet. *)
Record TurnContext : Type := mkContext {
  cachedHistory : option (list Message)
}.

(** [conversationHistoryAccessor.get(context, defaultValue)] *)
Definition accessor_get (w : BotWorld) (ctx : TurnContext) (conversationId : jsstring)
    (defaultValue : list Message) : TurnContext * list Message :=
  match cachedHistory ctx with
  | Some h => (ctx, h)
  | None =>
      let h := default defaultValue (memory w !! conversationId) in
      (mkContext (Some h), h)
  end.

(** [conversationHistoryAccessor.set(context, value)] *)
Definition accessor_set (ctx : TurnContext) (value : list Message) : TurnContext :=
  mkContext (Some value).

(** [conversationState.saveChanges(context)] *)
Definition saveChanges (w : BotWorld) (ctx : TurnContext) (conversationId : jsstring)
  : BotWorld :=
  match cachedHistory ctx with
  | Some h => mkWorld (<[conversationId := h]> (memory w)) (service w) (persistent w) (sent w)
  | None => w
  end.

(** What the restore step leaves in [conversationHistory].  The handler
    assigns whatever [loadConversationHistory] returned when it is truthy
    with a positive [length]; a value that is not an array of turn records
    has no counterpart in [list Message], and the turn then fails inside
    the [try] block at the latest when the model is called with it. *)
Inductive Restored : Type :=
| History (conversationHistory : list Message)
| NotTurnRecords.

Definition restore_from (savedHistory : json) : option Restored :=
  match savedHistory with
  | JArr (_ :: _) =>
      match history_of_json savedHistory with
      | Some h => Some (History h)
      | None => Some NotTurnRecords
      end
  | JStr (_ :: _) => Some NotTurnRecords
  | _ => None
  end.

Section Handler.

Variable encode : jsstring -> list N.

(** The reset branch: [/restart]. *)
Definition onRestart (te : TurnEnv) (w : BotWorld) (ctx : TurnContext)
    (conversationId : jsstring) : BotWorld * TurnContext * outcome unit :=
  let ctx1 := accessor_set ctx [] in
  let w1 := saveChanges w ctx1 conversationId in
  let '((s, d), r) :=
    deleteConversationHistory (io_delete te) (process_env te)
                              (service w1, persistent w1) conversationId in
  let w2 := mkWorld (memory w1) s d (sent w1) in
  match r with
  | Rejected e => (w2, ctx1, Rejected e)
  | Resolved _ =>
      (send (TextActivity (js "You can type '/restart' anytime to start fresh!"))
         (send (TextActivity standardDisclaimer)
            (send (TextActivity (js "Conversation history has been reset! Let's start over!"))
                  w2)),
       ctx1, Resolved tt)
  end.

(** The history of the conversation state, or, when that is empty, the
    persisted one. *)
Definition loadHistory (te : TurnEnv) (w : BotWorld) (ctx : TurnContext)
    (conversationId : jsstring) : BotWorld * TurnContext * Restored :=
  let '(ctx1, conversationHistory) := accessor_get w ctx conversationId [] in
  if (length conversationHistory =? 0)%nat then
    (* try *)
    let '((s, d), r) :=
      loadConversationHistory (io_load te) (process_env te)
                              (service w, persistent w) conversationId in
    let w1 := mkWorld (memory w) s d (sent w) in
    match r with
    | Resolved savedHistory =>
        match restore_from savedHistory with
        | Some (History h) => (w1, accessor_set ctx1 h, History h)
        | Some NotTurnRecords => (w1, ctx1, NotTurnRecords)
        | None => (w1, ctx1, History conversationHistory)
        end
    | Rejected _ => (* catch (error) *) (w1, ctx1, History conversationHistory)
    end
  else (w, ctx1, History conversationHistory).

(** The body of the [try] block, from the system message to the save. *)
Definition respond (te : TurnEnv) (w : BotWorld) (ctx : TurnContext)
    (conversationId txt : jsstring) (restored : Restored)
  : BotWorld * TurnContext * outcome unit :=
  match restored with
  | NotTurnRecords => (w, ctx, Rejected (js "TypeError"))
  | History conversationHistory =>
      let systemTokens := Z.of_nat (length (encode (systemMessage (formattedDate te)))) in
      let messages :=
        system_turn (systemMessage (formattedDate te))
          :: conversationHistory ++ [user_turn txt] in
      match responses_create (openai te) messages with
      | Rejected e => (w, ctx, Rejected e)
      | Resolved response =>
          let botResponseText := response_text response in
          match classifyTextForDisclaimer (openai te) botResponseText with
          | Rejected e => (w, ctx, Rejected e)
          | Resolved classification =>
              let reply :=
                if bool_decide (class_label classification = NEEDS_DISCLAIMER)
                then botResponseText ++ shortDisclaimer
                else botResponseText in
              let w1 := send (TextActivity reply) w in
              (* the two [push] calls *)
              let pushed :=
                conversationHistory ++ [user_turn txt; assistant_turn botResponseText] in
              let trimmed :=
                if (0 <? length pushed)%nat
                then trimConversationToTokenLimit encode pushed systemTokens 0
                else pushed in
              let ctx1 := accessor_set ctx trimmed in
              let w2 := saveChanges w1 ctx1 conversationId in
              let '((s, d), r) :=
                saveConversationHistory (io_save te) (process_env te)
                                        (service w2, persistent w2) conversationId trimmed in
              (mkWorld (memory w2) s d (sent w2), ctx1, r)
          end
      end
  end.

(** The handler registered with [this.onMessage], run on a fresh turn
    context.  [txt] is the message text with the mention removed and
    trimmed. *)
Definition onMessage (te : TurnEnv) (w : BotWorld) (conversationId txt : jsstring)
  : BotWorld * TurnContext * outcome unit :=
  let ctx := mkContext None in
  if bool_decide (toLowerCase txt = js "/restart") then onRestart te w ctx conversationId
  else
    let '(w1, ctx1, restored) := loadHistory te w ctx conversationId in
    let w2 := send Typing w1 in
    let '(w3, ctx3, r) := respond te w2 ctx1 conversationId txt restored in
    match r with
    | Resolved _ => (w3, ctx3, Resolved tt)
    | Rejected error =>
        (* catch (error) *) (send (TextActivity apology) w3, ctx3, Resolved tt)
    end.

End Handler.

(** ** Members-added handler ([TeamsBot], [this.onMembersAdded]) *)

(** An entry of [context.activity.membersAdded]; [member_id] is [None] or
    empty when [membersAdded[cnt].id] is falsy. *)
Record ChannelAccount : Type := mkAccount {
  member_id : option jsstring
}.

Definition has_id (member : ChannelAccount) : bool :=
  match member_id member with
  | Some (_ :: _) => true
  | _ => false
  end.

(** The [for] loop with its [break]. *)
Fixpoint onMembersAdded (membersAdded : list ChannelAccount) (w : BotWorld) : BotWorld :=
  match membersAdded with
  | [] => w
  | member :: rest =>
      if has_id member
      then send (TextActivity (js "You can type '/restart' anytime to start fresh!"))
                (send (TextActivity standardDisclaimer) w)
      else onMembersAdded rest w
  end.

(** ** The adapter's error handler ([index.js], [adapter.onTurnError]) *)




(** ** Sample inputs *)

(** A client whose every model call rejects. *)
Definition failing_instructor : InstructorClient :=
  mkInstructor (fun _ => Rejected (js "network error")).

Definition unreachable_openai : OpenAIClient :=
  mkOpenAI (fun _ => Resolved failing_instructor) (fun _ => Rejected (js "network error")).

(** An encoder for which every text has 300000 tokens. *)
Definition long_encoder : jsstring -> list N := fun _ => repeat 0%N (Z.to_nat 300000).

(** The platform on which every operation succeeds, and one on which
    deleting fails. *)
Definition platform_ok : Platform :=
  mkPlatform (fun _ => true) (fun _ => true) true true true true.

Definition platform_delete_fails : Platform :=
  mkPlatform (fun _ => true) (fun _ => true) true true true false.

Definition local_env : ProcessEnv := mkEnv true false (js "/app") (js "/tmp").
Definition azure_env : ProcessEnv := mkEnv false true (js "/app") (js "/tmp").

Definition fresh_storage (env : ProcessEnv) : StorageService * Persistent :=
  (fst (newStorageService platform_ok env), mkPersistent ∅ ∅).

(** One user turn whose text is the single character U+00E9. *)
Definition accented_history : list Message := [user_turn [233%N]].

Definition plain_history : list Message :=
  [user_turn (js "What is a W-2?"); assistant_turn (js "A wage statement.")].

(** A store holding one saved conversation. *)
Definition saved_storage : StorageService * Persistent :=
  fst (saveConversationHistory platform_ok local_env (fresh_storage local_env)
         (js "19:meeting") plain_history).

(** A world with one conversation in memory and on disk, and a turn during
    which the model is unreachable. *)
Definition busy_world : BotWorld :=
  mkWorld {[ js "19:meeting" := plain_history ]} (fst saved_storage) (snd saved_storage) [].

(** The same conversation after a process restart: nothing in memory, the
    history on disk. *)
Definition restarted_world : BotWorld :=
  mkWorld ∅ (fst saved_storage) (snd saved_storage) [].

Definition offline_turn : TurnEnv :=
  mkTurnEnv local_env unreachable_openai (js "Monday, November 2, 2026")
            platform_ok platform_ok platform_ok.

(** A client whose model answers [Sure.] and whose classifier asks for no
    disclaimer, and one whose classifier is unreachable. *)
Definition lenient_instructor : InstructorClient :=
  mkInstructor (fun _ => Resolved (mkClassification NO_DISCLAIMER_NEEDED (js "small talk"))).

Definition answering_openai : OpenAIClient :=
  mkOpenAI (fun _ => Resolved lenient_instructor)
           (fun _ => Resolved (mkResponse (js "Sure.") [])).


Definition online_turn : TurnEnv :=
  mkTurnEnv local_env answering_openai (js "Monday, November 2, 2026")
            platform_ok platform_ok platform_ok.



(** A platform on which nothing works: no directory exists or can be made,
    and the Azure client does not connect; and one on which only the
    connection to Azure fails. *)
Definition platform_down : Platform :=
  mkPlatform (fun _ => false) (fun _ => false) false false false false.

Definition platform_disconnected : Platform :=
  mkPlatform (fun _ => true) (fun _ => true) false true true true.




(** * Properties *)

Ltac lia_div := zify; Z.to_euclidean_division_equations; lia.

Ltac bool_facts :=
  repeat match goal with
  | H : _ && _ = true |- _ => apply andb_true_iff in H; destruct H
  | H : _ || _ = false |- _ => apply orb_false_iff in H; destruct H
  | H : _ && _ = false |- _ => apply andb_false_iff in H; destruct H
  | H : _ || _ = true |- _ => apply orb_true_iff in H; destruct H
  | H : negb _ = true |- _ => apply negb_true_iff in H
  | H : negb _ = false |- _ => apply negb_false_iff in H
  | H : N.leb _ _ = true |- _ => apply N.leb_le in H
  | H : N.leb _ _ = false |- _ => apply N.leb_gt in H
  | H : N.ltb _ _ = true |- _ => apply N.ltb_lt in H
  | H : N.ltb _ _ = false |- _ => apply N.ltb_ge in H
  | H : N.eqb _ _ = true |- _ => apply N.eqb_eq in H
  | H : N.eqb _ _ = false |- _ => apply N.eqb_neq in H
  end.

(** ** Facts about counting *)

Section CountingFacts.

Variable encode : jsstring -> list N.

Lemma fold_count_part_shift parts acc :
  fold_left (count_part encode) parts acc
  = acc + fold_left (count_part encode) parts 0.
Proof.
  revert acc. induction parts as [|c parts IH]; intros acc; simpl.
  - lia.
  - rewrite IH. rewrite (IH (count_part encode 0 c)).
    assert (count_part encode acc c = acc + count_part encode 0 c); [|lia].
    unfold count_part. destruct (is_text_part c); lia.
Qed.

Lemma fold_count_part_nonneg parts : 0 <= fold_left (count_part encode) parts 0.
Proof.
  induction parts as [|c parts IH]; simpl; [lia|].
  rewrite fold_count_part_shift.
  assert (0 <= count_part encode 0 c); [|lia].
  unfold count_part. destruct (is_text_part c); lia.
Qed.

Lemma countTokensInMessage_nonneg m : 0 <= countTokensInMessage encode m.
Proof.
  unfold countTokensInMessage. destruct (content m); [apply fold_count_part_nonneg | lia].
Qed.

Lemma fold_messages_shift ms acc :
  fold_left (fun t m => t + countTokensInMessage encode m) ms acc
  = acc + countTokensInMessages encode ms.
Proof.
  unfold countTokensInMessages.
  revert acc. induction ms as [|m ms IH]; intros acc; simpl.
  - lia.
  - rewrite IH, (IH (0 + _)). lia.
Qed.

Lemma countTokensInMessages_cons m ms :
  countTokensInMessages encode (m :: ms)
  = countTokensInMessage encode m + countTokensInMessages encode ms.
Proof.
  unfold countTokensInMessages at 1. simpl. rewrite fold_messages_shift. lia.
Qed.

Lemma countTokensInMessages_app h1 h2 :
  countTokensInMessages encode (h1 ++ h2)
  = countTokensInMessages encode h1 + countTokensInMessages encode h2.
Proof.
  induction h1 as [|m h1 IH]; simpl.
  - unfold countTokensInMessages at 2. simpl. lia.
  - rewrite !countTokensInMessages_cons, IH. lia.
Qed.

Lemma countTokensInMessages_nonneg ms : 0 <= countTokensInMessages encode ms.
Proof.
  induction ms as [|m ms IH].
  - unfold countTokensInMessages. simpl. lia.
  - rewrite countTokensInMessages_cons.
    pose proof (countTokensInMessage_nonneg m). lia.
Qed.

Lemma count_parts_other parts :
  Forall (fun c => is_text_part c = false) parts ->
  fold_left (count_part encode) parts 0 = 0.
Proof.
  induction 1 as [|c parts Hc _ IH]; simpl; [reflexivity|].
  unfold count_part at 2. rewrite Hc. exact IH.
Qed.

End CountingFacts.

(** ** Facts about the trimming loop *)

Section TrimFacts.

Variable encode : jsstring -> list N.

(** Induction two turns at a time, the way the loop consumes the array. *)
Lemma exchange_ind (P : list Message -> Prop) :
  P [] -> (forall m, P [m]) ->
  (forall m1 m2 rest, P rest -> P (m1 :: m2 :: rest)) ->
  forall h, P h.
Proof.
  intros Hnil Hone Hstep.
  assert (H : forall h, P h /\ forall m, P (m :: h)).
  { induction h as [|m h [IH1 IH2]]; split; auto. }
  intros h. apply H.
Qed.

Lemma trim_loop_stop S U h :
  S + U + countTokensInHistory encode (trim_loop encode S U h) <= MAX_TOKENS
  \/ (length (trim_loop encode S U h) <= 1)%nat.
Proof.
  induction h as [| m | m1 m2 rest IH] using exchange_ind.
  - right. simpl. lia.
  - right. simpl. lia.
  - cbn [trim_loop].
    destruct (Z.gtb_spec (S + U + countTokensInHistory encode (m1 :: m2 :: rest)) MAX_TOKENS).
    + exact IH.
    + left. lia.
Qed.

Lemma trim_loop_drop S U h :
  exists k : nat, (2 * k <= length h)%nat /\ trim_loop encode S U h = drop (2 * k) h.
Proof.
  induction h as [| m | m1 m2 rest IH] using exchange_ind.
  - exists 0%nat. split; [simpl; lia | reflexivity].
  - exists 0%nat. split; [simpl; lia | reflexivity].
  - cbn [trim_loop].
    destruct (S + U + countTokensInHistory encode (m1 :: m2 :: rest) >? MAX_TOKENS).
    + destruct IH as (k & Hk & ->). exists (Datatypes.S k). split.
      * simpl. lia.
      * replace (2 * Datatypes.S k)%nat with (Datatypes.S (Datatypes.S (2 * k))) by lia.
        reflexivity.
    + exists 0%nat. split; [simpl; lia | reflexivity].
Qed.

Lemma trim_loop_fixed S U h :
  trim_loop encode S U (trim_loop encode S U h) = trim_loop encode S U h.
Proof.
  induction h as [| m | m1 m2 rest IH] using exchange_ind; try reflexivity.
  cbn [trim_loop].
  destruct (S + U + countTokensInHistory encode (m1 :: m2 :: rest) >? MAX_TOKENS) eqn:E.
  - exact IH.
  - cbn [trim_loop]. rewrite E. reflexivity.
Qed.

Lemma trim_drop h S U :
  exists k : nat,
    (2 * k <= length h)%nat /\ trimConversationToTokenLimit encode h S U = drop (2 * k) h.
Proof.
  unfold trimConversationToTokenLimit.
  destruct (length h =? 0)%nat; [exists 0%nat; split; [lia | reflexivity] |].
  cbv zeta.
  destruct (S + U + countTokensInHistory encode h <=? MAX_TOKENS);
    [exists 0%nat; split; [lia | reflexivity] |].
  apply trim_loop_drop.
Qed.

End TrimFacts.

(** ** JSON text round trip *)

Section JsonFacts.

Local Open Scope N_scope.

Lemma hex_value_digit d : d < 16 -> hex_value (hex_digit d) = Some d.
Proof.
  intros H. unfold hex_digit, hex_value.
  destruct (d <? 10) eqn:E; bool_facts.
  - replace ((48 <=? 48 + d) && (48 + d <=? 57)) with true
      by (symmetry; apply andb_true_iff; split; apply N.leb_le; lia).
    f_equal. lia.
  - replace ((48 <=? 87 + d) && (87 + d <=? 57)) with false
      by (symmetry; apply andb_false_iff; right; apply N.leb_gt; lia).
    replace ((97 <=? 87 + d) && (87 + d <=? 102)) with true
      by (symmetry; apply andb_true_iff; split; apply N.leb_le; lia).
    f_equal. lia.
Qed.

Lemma lex_unicode_escape u acc rest :
  u < 65536 ->
  lex (LxString acc) (unicode_escape u ++ rest) = lex (LxString (u :: acc)) rest.
Proof.
  intros Hu. unfold unicode_escape.
  assert (D : u = 4096 * (u / 4096 mod 16) + 256 * (u / 256 mod 16) + 16 * (u / 16 mod 16) + u mod 16
              /\ u / 4096 mod 16 < 16 /\ u / 256 mod 16 < 16 /\ u / 16 mod 16 < 16 /\ u mod 16 < 16)
    by lia_div.
  destruct D as (D & D1 & D2 & D3 & D4). revert D D1 D2 D3 D4.
  generalize (u / 4096 mod 16), (u / 256 mod 16), (u / 16 mod 16), (u mod 16).
  intros a b c d D D1 D2 D3 D4.
  cbn [app lex]. change (92 =? 34) with false. change (92 =? 92) with true.
  cbn [lex]. change (117 =? 117) with true. cbn [lex].
  rewrite !hex_value_digit by assumption.
  do 3 f_equal. lia.
Qed.

Lemma list_pair_ind {A : Type} (P : list A -> Prop) :
  P [] -> (forall x, P [x]) ->
  (forall x y l, P l -> P (y :: l) -> P (x :: y :: l)) ->
  forall l, P l.
Proof.
  intros Hnil Hone Hstep.
  assert (H : forall l, P l /\ forall x, P (x :: l)).
  { induction l as [|y l [IH1 IH2]]; split; auto. }
  intros l. apply H.
Qed.

(** A quoted unit is read back by the lexer. *)
Lemma lex_quote_unit u acc rest :
  lex (LxString acc) (quote_unit u ++ rest) = lex (LxString (u :: acc)) rest.
Proof.
  unfold quote_unit.
  repeat match goal with
  | |- context [if ?u =? ?k then _ else _] =>
      destruct (N.eqb_spec u k) as [->|]; [reflexivity|]
  end.
  destruct ((u <? 32) || is_leading_surrogate u || is_trailing_surrogate u) eqn:E.
  - apply lex_unicode_escape.
    unfold is_leading_surrogate, is_trailing_surrogate in E. bool_facts; lia.
  - bool_facts. cbn [app lex].
    replace (u =? 34) with false by (symmetry; apply N.eqb_neq; assumption).
    replace (u =? 92) with false by (symmetry; apply N.eqb_neq; assumption).
    replace (u <? 32) with false by (symmetry; apply N.ltb_ge; assumption).
    reflexivity.
Qed.

Lemma lex_quote_body s : forall acc rest,
  lex (LxString acc) (quote_body s ++ 34 :: rest)
  = cons (TString (rev acc ++ s)) <$> lex LxStart rest.
Proof.
  induction s as [| u | u v s IH1 IH2] using list_pair_ind; intros acc rest.
  - cbn [quote_body app lex]. change (34 =? 34) with true. cbv iota. rewrite app_nil_r. reflexivity.
  - cbn [quote_body]. rewrite lex_quote_unit.
    cbn [lex]. change (34 =? 34) with true. cbv iota. reflexivity.
  - cbn [quote_body].
    destruct (is_leading_surrogate u && is_trailing_surrogate v) eqn:E.
    + unfold is_leading_surrogate, is_trailing_surrogate in E. bool_facts.
      cbn [app lex].
      replace (u =? 34) with false by (symmetry; apply N.eqb_neq; lia).
      replace (u =? 92) with false by (symmetry; apply N.eqb_neq; lia).
      replace (u <? 32) with false by (symmetry; apply N.ltb_ge; lia).
      replace (v =? 34) with false by (symmetry; apply N.eqb_neq; lia).
      replace (v =? 92) with false by (symmetry; apply N.eqb_neq; lia).
      replace (v <? 32) with false by (symmetry; apply N.ltb_ge; lia).
      rewrite IH1. cbn [rev]. rewrite <- !app_assoc. reflexivity.
    + rewrite <- app_assoc, lex_quote_unit.
      rewrite IH2. cbn [rev]. rewrite <- !app_assoc. reflexivity.
Qed.

Lemma lex_QuoteJSONString s rest :
  lex LxStart (QuoteJSONString s ++ rest) = cons (TString s) <$> lex LxStart rest.
Proof.
  unfold QuoteJSONString. cbn [app lex]. unfold lex_start.
  change (is_whitespace 34) with false. change (34 =? 34) with true. cbv iota.
  rewrite <- app_assoc. cbn [app]. rewrite lex_quote_body. reflexivity.
Qed.


Lemma lex_punctuation c t rest :
  punctuation c = Some t ->
  lex LxStart (c :: rest) = cons t <$> lex LxStart rest.
Proof.
  intros H. cbn [lex]. unfold lex_start.
  assert (is_whitespace c = false /\ (c =? 34) = false) as [-> ->].
  { unfold punctuation in H. unfold is_whitespace.
    repeat match type of H with
    | (if ?u =? ?k then _ else _) = _ => destruct (N.eqb_spec u k) as [->|]; [split; reflexivity|]
    end. discriminate. }
  rewrite H. reflexivity.
Qed.

Lemma fmap_app_compose {A} (a b : list A) (o : option (list A)) :
  (a ++.) <$> ((b ++.) <$> o) = ((a ++ b) ++.) <$> o.
Proof. destruct o; cbn; [rewrite app_assoc|]; reflexivity. Qed.

Lemma fmap_cons_app {A} (x : A) (o : option (list A)) :
  cons x <$> o = ([x] ++.) <$> o.
Proof. destruct o; reflexivity. Qed.

(** Lexing a comma-separated sequence, given that every piece lexes. *)
Lemma lex_join {A} (text : A -> jsstring) (toks : A -> list token) (xs : list A) rest :
  Forall (fun x => forall r, lex LxStart (text x ++ r) = (toks x ++.) <$> lex LxStart r) xs ->
  lex LxStart (join_comma (map text xs) ++ rest)
  = (join_tokens (map toks xs) ++.) <$> lex LxStart rest.
Proof.
  induction 1 as [|x xs Hx _ IH].
  - cbn. destruct (lex LxStart rest); reflexivity.
  - destruct xs as [|y ys].
    + cbn [map join_comma join_tokens]. apply Hx.
    + change (join_comma (map text (x :: y :: ys)))
        with (text x ++ [44] ++ join_comma (map text (y :: ys))).
      change (join_tokens (map toks (x :: y :: ys)))
        with (toks x ++ [TComma] ++ join_tokens (map toks (y :: ys))).
      rewrite <- !app_assoc, Hx. cbn [app].
      rewrite (lex_punctuation 44 TComma) by reflexivity.
      rewrite IH. rewrite fmap_cons_app, !fmap_app_compose.
      rewrite <- !app_assoc. reflexivity.
Qed.

Lemma lex_stringify v : text_json v ->
  forall rest, lex LxStart (JSON_stringify v ++ rest) = (tokens_of v ++.) <$> lex LxStart rest.
Proof.
  induction v as [| | | s | items IH | members IH] using json_ind; cbn [text_json]; try tauto.
  - intros _ rest. cbn [JSON_stringify tokens_of]. rewrite lex_QuoteJSONString.
    apply fmap_cons_app.
  - intros Ht rest. cbn [JSON_stringify tokens_of]. rewrite <- !app_assoc. cbn [app].
    rewrite (lex_punctuation 91 TLBracket) by reflexivity.
    rewrite (lex_join JSON_stringify tokens_of).
    + cbn [app]. rewrite (lex_punctuation 93 TRBracket) by reflexivity.
      rewrite !fmap_cons_app, !fmap_app_compose. rewrite <- !app_assoc. reflexivity.
    + clear rest. induction IH as [|x xs Hx _ IHxs]; [constructor|].
      destruct Ht as [Hx' Hxs']. constructor; auto.
  - intros [_ Ht] rest. cbn [JSON_stringify tokens_of]. rewrite <- !app_assoc. cbn [app].
    rewrite (lex_punctuation 123 TLBrace) by reflexivity.
    rewrite (lex_join (fun kv => QuoteJSONString (fst kv) ++ [58] ++ JSON_stringify (snd kv))
                      (fun kv => [TString (fst kv); TColon] ++ tokens_of (snd kv))).
    + cbn [app]. rewrite (lex_punctuation 125 TRBrace) by reflexivity.
      rewrite !fmap_cons_app, !fmap_app_compose. rewrite <- !app_assoc. reflexivity.
    + clear rest. induction IH as [|x xs Hx _ IHxs]; [constructor|].
      destruct Ht as [Hx' Hxs']. constructor; auto.
      intros r. rewrite <- !app_assoc, lex_QuoteJSONString. cbn [app].
      rewrite (lex_punctuation 58 TColon) by reflexivity.
      rewrite Hx by assumption.
      rewrite !fmap_cons_app, !fmap_app_compose. reflexivity.
Qed.

Lemma join_tokens_cons (p : list token) (more : list (list token)) :
  join_tokens (p :: more) = p ++ concat (map (cons TComma) more).
Proof.
  revert p. induction more as [|q more IH]; intros p.
  - cbn. rewrite app_nil_r. reflexivity.
  - change (join_tokens (p :: q :: more)) with (p ++ [TComma] ++ join_tokens (q :: more)).
    rewrite IH. reflexivity.
Qed.

Lemma parse_or_close v stack rest :
  text_json v ->
  parse_tokens (ExpValueOrClose stack) (tokens_of v ++ rest)
  = parse_tokens (ExpValue stack) (tokens_of v ++ rest).
Proof.
  destruct v; cbn [text_json]; try tauto; intros _; cbn [tokens_of app parse_tokens parse_step];
    destruct stack as [|[] ?]; reflexivity.
Qed.

Lemma add_member_fresh k v members_rev :
  k ∉ members_rev.*1 -> add_member k v members_rev = (k, v) :: members_rev.
Proof. intros H. unfold add_member. rewrite bool_decide_eq_false_2 by assumption. reflexivity. Qed.

Section ParseValue.

Let parses (v : json) : Prop :=
  forall stack rest,
    parse_tokens (ExpValue stack) (tokens_of v ++ rest) = resume v stack rest.

Lemma parse_array_tail more : forall acc stack rest,
  Forall parses more ->
  parse_tokens (ExpCommaOrClose (FArr acc :: stack))
               (concat (map (cons TComma) (map tokens_of more)) ++ TRBracket :: rest)
  = resume (JArr (rev acc ++ more)) stack rest.
Proof.
  induction more as [|y more IH]; intros acc stack rest Hall.
  - cbn [map concat app parse_tokens parse_step]. rewrite app_nil_r. reflexivity.
  - inversion Hall as [|? ? Hy Hmore]; subst.
    cbn [map concat app parse_tokens parse_step mbind option_bind].
    rewrite <- app_assoc, Hy. unfold resume at 1. cbn [deliver mbind option_bind].
    rewrite IH by assumption. cbn [rev]. rewrite <- app_assoc. reflexivity.
Qed.

Lemma parse_object_tail more : forall acc stack rest,
  Forall (fun kv => parses (snd kv)) more ->
  NoDup (acc.*1 ++ more.*1) ->
  parse_tokens (ExpCommaOrClose (FObj acc :: stack))
               (concat (map (cons TComma)
                            (map (fun kv => [TString (fst kv); TColon] ++ tokens_of (snd kv)) more))
                ++ TRBrace :: rest)
  = resume (JObj (rev acc ++ more)) stack rest.
Proof.
  induction more as [|[k v] more IH]; intros acc stack rest Hall Hnd.
  - cbn [map concat app parse_tokens parse_step]. rewrite app_nil_r. reflexivity.
  - inversion Hall as [|? ? Hv Hmore]; subst. cbn [snd fst] in *.
    cbn [map concat app parse_tokens parse_step fst snd mbind option_bind].
    rewrite <- app_assoc, Hv. unfold resume at 1. cbn [deliver mbind option_bind].
    assert (Hk : k ∉ acc.*1).
    { apply NoDup_app in Hnd as (_ & Hdisj & _). intros Hin.
      apply (Hdisj k Hin). cbn. left. }
    rewrite add_member_fresh by assumption.
    rewrite IH; [|assumption|].
    + cbn [rev]. rewrite <- app_assoc. reflexivity.
    + cbn [fmap list_fmap fst]. 
      apply NoDup_app in Hnd as (Ha & Hdisj & Hm). cbn in Hm.
      apply NoDup_cons in Hm as [Hk' Hm]. 
      apply NoDup_app. split; [|split].
      * apply NoDup_cons. split; assumption.
      * intros x Hx Hx'. apply elem_of_cons in Hx as [->|Hx]; [contradiction|].
        apply (Hdisj x Hx). cbn. right. exact Hx'.
      * exact Hm.
Qed.

Lemma parse_value_tokens v : text_json v -> parses v.
Proof.
  induction v as [| | | s | items IH | members IH] using json_ind; cbn [text_json]; try tauto.
  - intros _ stack rest. reflexivity.
  - intros Ht stack rest.
    assert (Hall : Forall parses items).
    { induction IH as [|x xs Hx _ IHxs]; [constructor|].
      destruct Ht as [Hx' Hxs']. constructor; auto. }
    cbn [tokens_of app parse_tokens parse_step parse_value mbind option_bind].
    destruct items as [|x xs].
    + cbn [map join_tokens app parse_tokens parse_step]. reflexivity.
    + inversion Hall as [|? ? Hx Hxs]; subst.
      cbn [map]. rewrite join_tokens_cons, <- !app_assoc.
      rewrite parse_or_close by (destruct Ht; assumption).
      rewrite Hx. unfold resume at 1. cbn [deliver mbind option_bind].
      cbn [app]. rewrite parse_array_tail by assumption. reflexivity.
  - intros [Hnd Ht] stack rest.
    assert (Hall : Forall (fun kv => parses (snd kv)) members).
    { induction IH as [|x xs Hx _ IHxs]; [constructor|].
      destruct Ht as [Hx' Hxs']. constructor; auto.
      apply IHxs; [|assumption]. cbn in Hnd. apply NoDup_cons in Hnd. tauto. }
    cbn [tokens_of app parse_tokens parse_step parse_value mbind option_bind].
    destruct members as [|[k v] xs].
    + cbn [map join_tokens app parse_tokens parse_step]. reflexivity.
    + inversion Hall as [|? ? Hx Hxs]; subst. cbn [fst snd] in *.
      cbn [map fst snd]. rewrite join_tokens_cons, <- !app_assoc.
      cbn [app parse_tokens parse_step mbind option_bind].
      rewrite Hx. unfold resume at 1. cbn [deliver mbind option_bind].
      rewrite add_member_fresh by (cbn; apply not_elem_of_nil).
      rewrite parse_object_tail; [reflexivity|assumption|exact Hnd].
Qed.

End ParseValue.

Theorem JSON_parse_stringify v : text_json v -> JSON_parse (JSON_stringify v) = Some v.
Proof.
  intros Hv. unfold JSON_parse.
  rewrite <- (app_nil_r (JSON_stringify v)), lex_stringify by assumption.
  cbn [lex fmap option_fmap option_map mbind option_bind].
  rewrite parse_value_tokens by assumption. reflexivity.
Qed.

End JsonFacts.

(** ** UTF-8 round trip *)

Section Utf8Facts.

Local Open Scope N_scope.

Ltac prove_bool :=
  repeat match goal with
  | |- _ && _ = true => apply andb_true_iff; split
  | |- (_ <=? _) = true => apply N.leb_le
  | |- (_ <? _) = true => apply N.ltb_lt
  | |- (_ <? _) = false => apply N.ltb_ge
  | |- (_ <=? _) = false => apply N.leb_gt
  | |- (_ =? _) = false => apply N.eqb_neq
  end; lia.

Lemma utf8_lead_ascii b : b < 0x80 -> utf8_lead b = ([b], utf8_initial).
Proof. intros H. unfold utf8_lead. replace (b <? 0x80) with true by (symmetry; prove_bool). reflexivity. Qed.

Lemma utf8_lead_two b :
  0xC2 <= b <= 0xDF -> utf8_lead b = ([], mkUtf8 (b - 0xC0) 1 0x80 0xBF).
Proof.
  intros H. unfold utf8_lead.
  replace (b <? 0x80) with false by (symmetry; prove_bool).
  replace ((0xC2 <=? b) && (b <=? 0xDF)) with true by (symmetry; prove_bool).
  reflexivity.
Qed.

Lemma utf8_lead_three b :
  0xE0 <= b <= 0xEF ->
  utf8_lead b = ([], mkUtf8 (b - 0xE0) 2 (if b =? 0xE0 then 0xA0 else 0x80)
                            (if b =? 0xED then 0x9F else 0xBF)).
Proof.
  intros H. unfold utf8_lead.
  replace (b <? 0x80) with false by (symmetry; prove_bool).
  replace ((0xC2 <=? b) && (b <=? 0xDF)) with false
    by (symmetry; apply andb_false_iff; right; prove_bool).
  replace ((0xE0 <=? b) && (b <=? 0xEF)) with true by (symmetry; prove_bool).
  reflexivity.
Qed.

Lemma utf8_lead_four b :
  0xF0 <= b <= 0xF4 ->
  utf8_lead b = ([], mkUtf8 (b - 0xF0) 3 (if b =? 0xF0 then 0x90 else 0x80)
                            (if b =? 0xF4 then 0x8F else 0xBF)).
Proof.
  intros H. unfold utf8_lead.
  replace (b <? 0x80) with false by (symmetry; prove_bool).
  replace ((0xC2 <=? b) && (b <=? 0xDF)) with false
    by (symmetry; apply andb_false_iff; right; prove_bool).
  replace ((0xE0 <=? b) && (b <=? 0xEF)) with false
    by (symmetry; apply andb_false_iff; right; prove_bool).
  replace ((0xF0 <=? b) && (b <=? 0xF4)) with true by (symmetry; prove_bool).
  reflexivity.
Qed.

Lemma utf8_step_last cp lo hi b :
  lo <= b <= hi ->
  utf8_step (mkUtf8 cp 1 lo hi) b = (emit_code_point (cp * 64 + (b - 0x80)), utf8_initial).
Proof.
  intros H. unfold utf8_step. cbn [bytes_needed lower_boundary upper_boundary code_point].
  replace ((lo <=? b) && (b <=? hi)) with true by (symmetry; prove_bool). reflexivity.
Qed.

Lemma utf8_step_more cp k lo hi b :
  lo <= b <= hi ->
  utf8_step (mkUtf8 cp (S (S k)) lo hi) b = ([], mkUtf8 (cp * 64 + (b - 0x80)) (S k) 0x80 0xBF).
Proof.
  intros H. unfold utf8_step. cbn [bytes_needed lower_boundary upper_boundary code_point].
  replace ((lo <=? b) && (b <=? hi)) with true by (symmetry; prove_bool). reflexivity.
Qed.

Lemma emit_bmp cp : cp < 0x10000 -> emit_code_point cp = [cp].
Proof. intros H. unfold emit_code_point. replace (cp <? 0x10000) with true by (symmetry; prove_bool). reflexivity. Qed.

Lemma decode_unit u rest :
  u < 0x10000 -> is_leading_surrogate u = false -> is_trailing_surrogate u = false ->
  utf8_decode_from utf8_initial (utf8_unit u ++ rest) = u :: utf8_decode_from utf8_initial rest.
Proof.
  intros Hu Hl Ht. unfold utf8_unit. rewrite Hl, Ht. cbn [orb].
  assert (Hs : u < 0xD800 \/ 0xDFFF < u).
  { unfold is_leading_surrogate, is_trailing_surrogate in *. bool_facts; lia. }
  clear Hl Ht.
  destruct (u <? 0x80) eqn:E1; [|destruct (u <? 0x800) eqn:E2]; bool_facts;
    cbn [app utf8_decode_from].
  - change (utf8_step utf8_initial u) with (utf8_lead u).
    rewrite utf8_lead_ascii by lia. reflexivity.
  - assert (D : u = 64 * (u / 64) + u mod 64 /\ u mod 64 < 64) by lia_div.
    destruct D as [D1 D2]. revert D1 D2.
    generalize (u / 64), (u mod 64). intros q r D1 D2.
    change (utf8_step utf8_initial ?b) with (utf8_lead b).
    rewrite utf8_lead_two by lia. cbn [app utf8_decode_from].
    rewrite utf8_step_last by lia. rewrite emit_bmp by lia.
    cbn [app]. f_equal. lia.
  - assert (D : u = 4096 * (u / 4096) + 64 * (u / 64 mod 64) + u mod 64
                /\ u / 64 mod 64 < 64 /\ u mod 64 < 64) by lia_div.
    destruct D as (D1 & D2 & D3). revert D1 D2 D3.
    generalize (u / 4096), (u / 64 mod 64), (u mod 64). intros a b c D1 D2 D3.
    change (utf8_step utf8_initial ?b) with (utf8_lead b).
    rewrite utf8_lead_three by lia. cbn [app utf8_decode_from].
    rewrite utf8_step_more.
    2:{ destruct (0xE0 + a =? 0xE0) eqn:Ea; destruct (0xE0 + a =? 0xED) eqn:Eb;
        bool_facts; lia. }
    cbn [app utf8_decode_from]. rewrite utf8_step_last by lia. rewrite emit_bmp by lia.
    cbn [app]. f_equal. lia.
Qed.

Lemma decode_pair hi lo rest :
  is_leading_surrogate hi = true -> is_trailing_surrogate lo = true ->
  utf8_decode_from utf8_initial (utf8_pair hi lo ++ rest)
  = hi :: lo :: utf8_decode_from utf8_initial rest.
Proof.
  intros Hl Ht. unfold utf8_pair.
  unfold is_leading_surrogate, is_trailing_surrogate in *. bool_facts.
  set (cp := 0x10000 + (hi - 0xD800) * 1024 + (lo - 0xDC00)).
  assert (Hcp : 0x10000 <= cp <= 0x10FFFF) by (subst cp; lia).
  assert (Hhi : 0xD800 + (cp - 0x10000) / 1024 = hi) by (subst cp; lia_div).
  assert (Hlo : 0xDC00 + (cp - 0x10000) mod 1024 = lo) by (subst cp; lia_div).
  clearbody cp. rewrite <- Hhi, <- Hlo. clear Hhi Hlo.
  assert (D : cp = 262144 * (cp / 262144) + 4096 * (cp / 4096 mod 64)
                   + 64 * (cp / 64 mod 64) + cp mod 64
              /\ cp / 4096 mod 64 < 64 /\ cp / 64 mod 64 < 64 /\ cp mod 64 < 64) by lia_div.
  destruct D as (D1 & D2 & D3 & D4). revert D1 D2 D3 D4.
  generalize (cp / 262144), (cp / 4096 mod 64), (cp / 64 mod 64), (cp mod 64).
  intros a b c d D1 D2 D3 D4.
  cbn [app utf8_decode_from].
  change (utf8_step utf8_initial ?b) with (utf8_lead b).
  rewrite utf8_lead_four by lia. cbn [app utf8_decode_from].
  rewrite utf8_step_more.
  2:{ destruct (0xF0 + a =? 0xF0) eqn:Ea; destruct (0xF0 + a =? 0xF4) eqn:Eb;
      bool_facts; lia. }
  cbn [app utf8_decode_from]. rewrite utf8_step_more by lia.
  cbn [app utf8_decode_from]. rewrite utf8_step_last by lia.
  match goal with |- context [emit_code_point ?e] => replace e with cp by lia end.
  unfold emit_code_point.
  replace (_ <? 0x10000) with false by (symmetry; apply N.ltb_ge; lia).
  reflexivity.
Qed.

Lemma not_leading_unit u rest :
  is_leading_surrogate u = false ->
  utf8_encode (u :: rest) = utf8_unit u ++ utf8_encode rest.
Proof.
  intros H. destruct rest as [|v rest]; cbn [utf8_encode].
  - rewrite app_nil_r. reflexivity.
  - rewrite H. reflexivity.
Qed.

Lemma utf8_roundtrip s :
  well_formed_utf16 s = true -> utf8_decode (utf8_encode s) = s.
Proof.
  unfold utf8_decode.
  induction s as [| u | u v s IH1 IH2] using list_pair_ind; intros Hwf.
  - reflexivity.
  - cbn [well_formed_utf16] in Hwf.
    destruct (is_leading_surrogate u) eqn:El; [discriminate|]. bool_facts.
    cbn [utf8_encode]. rewrite <- (app_nil_r (utf8_unit u)).
    rewrite decode_unit by (try assumption; lia). reflexivity.
  - cbn [well_formed_utf16] in Hwf.
    destruct (is_leading_surrogate u) eqn:El.
    + apply andb_true_iff in Hwf as [Ht Hwf].
      cbn [utf8_encode]. rewrite El, Ht. cbn [andb].
      rewrite decode_pair by assumption. rewrite IH1 by assumption. reflexivity.
    + apply andb_true_iff in Hwf as [Hwf1 Hwf]. apply andb_true_iff in Hwf1 as [Hu Ht].
      rewrite not_leading_unit by assumption.
      rewrite decode_unit; [|apply N.ltb_lt, Hu|assumption|apply negb_true_iff, Ht].
      rewrite IH2 by exact Hwf. reflexivity.
Qed.

Lemma well_formed_app a : forall b,
  well_formed_utf16 a = true -> well_formed_utf16 (a ++ b) = well_formed_utf16 b.
Proof.
  induction a as [| u | u v a IH1 IH2] using list_pair_ind; intros b Hwf.
  - reflexivity.
  - cbn [well_formed_utf16] in Hwf. cbn [app well_formed_utf16].
    destruct (is_leading_surrogate u); [discriminate|].
    apply andb_true_iff in Hwf as [-> _]. reflexivity.
  - cbn [well_formed_utf16] in Hwf. cbn [app well_formed_utf16].
    destruct (is_leading_surrogate u) eqn:El.
    + apply andb_true_iff in Hwf as [-> Hwf]. cbn [andb]. apply IH1, Hwf.
    + apply andb_true_iff in Hwf as [-> Hwf]. cbn [andb].
      apply (IH2 b Hwf).
Qed.

Lemma well_formed_app_true a b :
  well_formed_utf16 a = true -> well_formed_utf16 b = true ->
  well_formed_utf16 (a ++ b) = true.
Proof. intros Ha Hb. rewrite well_formed_app; assumption. Qed.

Lemma ascii_not_leading u : u < 0x80 -> is_leading_surrogate u = false.
Proof.
  intros H. unfold is_leading_surrogate. apply andb_false_iff. left. apply N.leb_gt. lia.
Qed.

Lemma ascii_not_trailing u : u < 0x80 -> is_trailing_surrogate u = false.
Proof.
  intros H. unfold is_trailing_surrogate. apply andb_false_iff. left. apply N.leb_gt. lia.
Qed.

Lemma ascii_well_formed s : ascii_only s -> well_formed_utf16 s = true.
Proof.
  induction 1 as [|u s Hu _ IH]; [reflexivity|].
  cbn [well_formed_utf16]. rewrite ascii_not_leading, ascii_not_trailing, IH by assumption.
  replace (u <? 0x10000) with true by (symmetry; apply N.ltb_lt; lia). reflexivity.
Qed.

Lemma ascii_utf8_encode s : ascii_only s -> utf8_encode s = s.
Proof.
  induction 1 as [|u s Hu _ IH]; [reflexivity|].
  rewrite not_leading_unit by (apply ascii_not_leading, Hu).
  unfold utf8_unit. replace (u <? 0x80) with true by (symmetry; apply N.ltb_lt; lia).
  rewrite IH. reflexivity.
Qed.

Lemma hex_digit_ascii d : d < 16 -> hex_digit d < 0x80.
Proof. intros H. unfold hex_digit. destruct (d <? 10); lia. Qed.

Lemma quote_unit_well_formed u :
  code_unit u -> well_formed_utf16 (quote_unit u) = true.
Proof.
  unfold code_unit. intros Hu. unfold quote_unit.
  repeat match goal with
  | |- context [if ?u =? ?k then _ else _] =>
      destruct (N.eqb_spec u k) as [->|]; [reflexivity|]
  end.
  destruct ((u <? 32) || is_leading_surrogate u || is_trailing_surrogate u) eqn:E.
  - apply ascii_well_formed. unfold unicode_escape.
    repeat (apply Forall_cons; split); try apply Forall_nil_2; try lia;
      apply hex_digit_ascii; lia_div.
  - apply orb_false_iff in E as [E Et]. apply orb_false_iff in E as [_ El].
    cbn [well_formed_utf16]. rewrite El, Et.
    replace (u <? 0x10000) with true by (symmetry; apply N.ltb_lt; lia). reflexivity.
Qed.

Lemma quote_body_well_formed s :
  wf_jsstring s -> well_formed_utf16 (quote_body s) = true.
Proof.
  unfold wf_jsstring.
  induction s as [| u | u v s IH1 IH2] using list_pair_ind; intros Hs.
  - reflexivity.
  - cbn [quote_body]. apply quote_unit_well_formed. inversion Hs; assumption.
  - inversion Hs as [|? ? Hu Hs']; subst. inversion Hs' as [|? ? Hv Hs'']; subst.
    cbn [quote_body].
    destruct (is_leading_surrogate u && is_trailing_surrogate v) eqn:E.
    + apply andb_true_iff in E as [El Et].
      cbn [well_formed_utf16]. rewrite El, Et. apply IH1, Hs''.
    + apply well_formed_app_true; [apply quote_unit_well_formed, Hu | apply IH2, Hs'].
Qed.

Lemma QuoteJSONString_well_formed s :
  wf_jsstring s -> well_formed_utf16 (QuoteJSONString s) = true.
Proof.
  intros Hs. unfold QuoteJSONString.
  apply (well_formed_app_true [34]); [reflexivity|].
  apply well_formed_app_true; [apply quote_body_well_formed, Hs | reflexivity].
Qed.

Lemma join_comma_well_formed pieces :
  Forall (fun p => well_formed_utf16 p = true) pieces ->
  well_formed_utf16 (join_comma pieces) = true.
Proof.
  induction 1 as [|p ps Hp _ IH]; [reflexivity|].
  destruct ps as [|q ps]; [exact Hp|].
  change (join_comma (p :: q :: ps)) with (p ++ [44] ++ join_comma (q :: ps)).
  apply well_formed_app_true; [exact Hp|].
  apply (well_formed_app_true [44]); [reflexivity | exact IH].
Qed.

End Utf8Facts.

(** * The properties of the specification *)

(** ** Token counter *)

(** C10. Token counting is additive over concatenation of turn sequences,
    every count is a non-negative integer, and only content entries of type
    [input_text] or [output_text] count: a message counts the tokens of
    exactly those entries, an entry of any other type changes nothing, and a
    turn without content array counts zero. *)
Theorem count_tokens_homomorphism (encode : jsstring -> list N) :
  (forall h1 h2,
      countTokensInMessages encode (h1 ++ h2)
      = countTokensInMessages encode h1 + countTokensInMessages encode h2)
  /\ (forall h, 0 <= countTokensInMessages encode h)
  /\ (forall m, 0 <= countTokensInMessage encode m)
  /\ (forall r before c after,
        type c <> js "input_text" -> type c <> js "output_text" ->
        countTokensInMessage encode (mkMessage r (Some (before ++ c :: after)))
        = countTokensInMessage encode (mkMessage r (Some (before ++ after))))
  /\ (forall r parts,
        Forall (fun c => type c <> js "input_text" /\ type c <> js "output_text") parts ->
        countTokensInMessage encode (mkMessage r (Some parts)) = 0)
  /\ (forall r, countTokensInMessage encode (mkMessage r None) = 0).
Proof.
  split; [apply countTokensInMessages_app|].
  split; [apply countTokensInMessages_nonneg|].
  split; [apply countTokensInMessage_nonneg|].
  assert (Hother : forall c, type c <> js "input_text" -> type c <> js "output_text" ->
                             is_text_part c = false).
  { intros c H1 H2. unfold is_text_part.
    rewrite !bool_decide_eq_false_2 by assumption. reflexivity. }
  split; [|split].
  - intros r before c after H1 H2. unfold countTokensInMessage. cbn [content].
    rewrite !fold_left_app. cbn [fold_left].
    unfold count_part at 2. rewrite (Hother c H1 H2). reflexivity.
  - intros r parts Hall. unfold countTokensInMessage. cbn [content].
    apply count_parts_other. eapply Forall_impl; [exact Hall|].
    intros c [H1 H2]. cbn beta. apply Hother; assumption.
  - reflexivity.
Qed.

Lemma count_tokens_homomorphism_witness :
  countTokensInMessage (fun s => s)
    (mkMessage (js "user") (Some [mkPart (js "input_image") (js "a.png")])) = 0.
Proof.
  apply (proj1 (proj2 (proj2 (proj2 (proj2 (count_tokens_homomorphism (fun s => s))))))).
  repeat constructor; discriminate.
Defined.

(** ** History trimmer *)

(** The loop leaves a history within budget or at most one turn. *)
Lemma trim_budget (encode : jsstring -> list N) (H : list Message) (S U : Z) :
  S + U + countTokensInHistory encode (trimConversationToTokenLimit encode H S U) <= MAX_TOKENS
  \/ (length (trimConversationToTokenLimit encode H S U) <= 1)%nat.
Proof.
  unfold trimConversationToTokenLimit.
  destruct (Nat.eqb_spec (length H) 0) as [E|E]; [right; lia|].
  cbv zeta.
  destruct (Z.leb_spec (S + U + countTokensInHistory encode H) MAX_TOKENS); [left; lia|].
  apply trim_loop_stop.
Qed.

(** The budget warning is only logged when no exchange is left to remove. *)
Lemma warning_only_when_exhausted (encode : jsstring -> list N) (H : list Message) (S U : Z) :
  stillOverLimit encode H S U = true ->
  (length (trimConversationToTokenLimit encode H S U) <= 1)%nat.
Proof.
  unfold stillOverLimit. intros Hw. apply Z.gtb_lt in Hw.
  destruct (trim_budget encode H S U); [lia | assumption].
Qed.

(** C1. Budget invariant: after trimming with [userTokens = 0], either the
    system tokens and the remaining history fit in [MAX_TOKENS], the fixed
    ceiling 900000, or at most one element remains. *)
Theorem trim_budget_invariant (encode : jsstring -> list N) (H : list Message) (S : Z) :
  MAX_TOKENS = 900000
  /\ (S + countTokensInHistory encode (trimConversationToTokenLimit encode H S 0) <= MAX_TOKENS
      \/ (length (trimConversationToTokenLimit encode H S 0) <= 1)%nat).
Proof.
  split; [reflexivity|].
  destruct (trim_budget encode H S 0) as [Hfit | Hshort].
  - left. lia.
  - right. exact Hshort.
Qed.



(** Three turns of 300000 tokens each, with 407 system tokens: the two
    oldest are removed and the last one is returned. *)
Example trim_three_turns :
  trimConversationToTokenLimit long_encoder
    [user_turn (js "a"); assistant_turn (js "b"); user_turn (js "c")] 407 0
  = [user_turn (js "c")].
Proof. vm_compute. reflexivity. Qed.


(** Two exchanges of that size: the older exchange goes. *)
Example trim_two_exchanges :
  trimConversationToTokenLimit long_encoder
    [user_turn (js "a"); assistant_turn (js "b"); user_turn (js "c"); assistant_turn (js "d")]
    407 0
  = [user_turn (js "c"); assistant_turn (js "d")].
Proof. vm_compute. reflexivity. Qed.

(** C7. Idempotence: trimming a trimmed history changes nothing, and a
    history that already fits is returned unchanged. *)
Theorem trim_idempotent (encode : jsstring -> list N) (H : list Message) (S : Z) :
  trimConversationToTokenLimit encode (trimConversationToTokenLimit encode H S 0) S 0
  = trimConversationToTokenLimit encode H S 0
  /\ (S + countTokensInHistory encode H <= MAX_TOKENS ->
      trimConversationToTokenLimit encode H S 0 = H).
Proof.
  split.
  - assert (Hcases : trimConversationToTokenLimit encode H S 0 = H
                     \/ trimConversationToTokenLimit encode H S 0 = trim_loop encode S 0 H).
    { unfold trimConversationToTokenLimit.
      destruct (length H =? 0)%nat; [left; reflexivity|]. cbv zeta.
      destruct (S + 0 + countTokensInHistory encode H <=? MAX_TOKENS); [left|right]; reflexivity. }
    destruct Hcases as [E|E]; rewrite E; [exact E|].
    unfold trimConversationToTokenLimit.
    destruct (length (trim_loop encode S 0 H) =? 0)%nat; [reflexivity|].
    cbv zeta.
    destruct (S + 0 + countTokensInHistory encode (trim_loop encode S 0 H) <=? MAX_TOKENS);
      [reflexivity|].
    apply trim_loop_fixed.
  - intros Hfit. unfold trimConversationToTokenLimit.
    destruct (length H =? 0)%nat; [reflexivity|]. cbv zeta.
    destruct (Z.leb_spec (S + 0 + countTokensInHistory encode H) MAX_TOKENS); [reflexivity|lia].
Qed.

Lemma trim_idempotent_witness :
  trimConversationToTokenLimit (fun s => s)
    [user_turn (js "hi"); assistant_turn (js "hello")] 500 0
  = [user_turn (js "hi"); assistant_turn (js "hello")].
Proof.
  apply (proj2 (trim_idempotent (fun s => s)
                  [user_turn (js "hi"); assistant_turn (js "hello")] 500)).
  vm_compute. discriminate.
Defined.

(** C8. Oldest first: the result is what is left of the history after
    dropping a whole number of exchanges from its front; the dropped turns
    followed by the result are the history again, and the turn at index [i]
    of the result is the turn at index [2k + i] of the history. *)
Theorem trim_oldest_first (encode : jsstring -> list N) (H : list Message) (S U : Z) :
  exists k : nat,
    (2 * k <= length H)%nat
    /\ trimConversationToTokenLimit encode H S U = drop (2 * k) H
    /\ H = take (2 * k) H ++ trimConversationToTokenLimit encode H S U
    /\ (forall i : nat,
          trimConversationToTokenLimit encode H S U !! i = H !! (2 * k + i)%nat).
Proof.
  destruct (trim_drop encode H S U) as (k & Hk & E).
  exists k. rewrite E. repeat split.
  - exact Hk.
  - symmetry. apply take_drop.
  - intros i. apply lookup_drop.
Qed.

(** ** The trimmer and the caller's array *)

Section RefFacts.

Variable encode : jsstring -> list N.

(** The loop on the store computes [trim_loop] in the array it is given
    and touches nothing else; a fuel of the array's length suffices. *)
Lemma ref_trim_loop fuel : forall (sigma : Ref.store) t arr S U,
  sigma !! t = Some arr ->
  (length arr <= fuel)%nat ->
  Ref.trim_loop encode fuel sigma t S U = Some (<[t := trim_loop encode S U arr]> sigma).
Proof.
  induction fuel as [|fuel IH]; intros sigma t arr S U Hlook Hfuel.
  - destruct arr; [|simpl in Hfuel; lia].
    cbn [Ref.trim_loop]. rewrite Hlook. cbn [length Nat.leb].
    rewrite andb_false_r. cbn [trim_loop]. rewrite insert_id by assumption. reflexivity.
  - cbn [Ref.trim_loop]. rewrite Hlook.
    destruct arr as [|x [|y rest]].
    + cbn [length Nat.leb]. rewrite andb_false_r. cbn [trim_loop].
      rewrite insert_id by assumption. reflexivity.
    + cbn [length Nat.leb]. rewrite andb_false_r. cbn [trim_loop].
      rewrite insert_id by assumption. reflexivity.
    + cbn [trim_loop]. cbn [length Nat.leb]. rewrite andb_true_r.
      destruct (S + U + countTokensInHistory encode (x :: y :: rest) >? MAX_TOKENS).
      * cbn [drop]. rewrite (IH _ t rest).
        -- rewrite insert_insert_eq. reflexivity.
        -- apply lookup_insert_eq.
        -- simpl in Hfuel. lia.
      * rewrite insert_id by assumption. reflexivity.
Qed.

End RefFacts.

(** C9. The caller's array is never mutated: the call returns, the array at
    [history] holds afterwards what it held before, as does every other
    array of the store, and the returned reference holds the trimmed
    history.  When nothing has to be trimmed the reference [history] itself
    is returned and the store is unchanged; otherwise the result is a fresh
    array. *)
Theorem trim_leaves_input_intact (encode : jsstring -> list N)
    (sigma : Ref.store) (history : Ref.loc) (h : list Message) (S U : Z) :
  sigma !! history = Some h ->
  exists (r : Ref.loc) (sigma' : Ref.store),
    Ref.trimConversationToTokenLimit encode sigma history S U = Some (r, sigma')
    /\ sigma' !! history = Some h
    /\ (forall l arr, sigma !! l = Some arr -> sigma' !! l = Some arr)
    /\ sigma' !! r = Some (trimConversationToTokenLimit encode h S U)
    /\ (h = [] \/ S + U + countTokensInHistory encode h <= MAX_TOKENS ->
        r = history /\ sigma' = sigma)
    /\ (h <> [] /\ S + U + countTokensInHistory encode h > MAX_TOKENS ->
        sigma !! r = None).
Proof.
  intros Hlook.
  unfold Ref.trimConversationToTokenLimit, trimConversationToTokenLimit. rewrite Hlook.
  destruct (Nat.eqb_spec (length h) 0) as [E0|E0].
  { exists history, sigma. repeat split; auto.
    intros [Hne _]. destruct h; [congruence | discriminate]. }
  cbv zeta.
  destruct (Z.leb_spec (S + U + countTokensInHistory encode h) MAX_TOKENS) as [E1|E1].
  { exists history, sigma. repeat split; auto. intros [_ Hgt]. lia. }
  set (t := fresh (dom sigma)).
  assert (Hfresh : sigma !! t = None).
  { apply not_elem_of_dom. apply is_fresh. }
  rewrite (ref_trim_loop encode (length h) _ t h) by (try apply lookup_insert_eq; lia).
  rewrite insert_insert_eq.
  exists t, (<[t := trim_loop encode S U h]> sigma).
  assert (Hne : history <> t) by congruence.
  repeat split.
  - rewrite lookup_insert_ne by congruence. exact Hlook.
  - intros l arr Hl. rewrite lookup_insert_ne by congruence. exact Hl.
  - apply lookup_insert_eq.
  - destruct H as [->|Hle]; [simpl in E0|]; lia.
  - destruct H as [->|Hle]; [simpl in E0|]; lia.
  - intros _. exact Hfresh.
Qed.

Lemma trim_leaves_input_intact_witness :
  exists (r : Ref.loc) (sigma' : Ref.store),
    Ref.trimConversationToTokenLimit (fun s => s)
      {[ 1%positive := [user_turn (js "a"); assistant_turn (js "b");
                        user_turn (js "c"); assistant_turn (js "d")] ]}
      1%positive 899998 0 = Some (r, sigma')
    /\ sigma' !! 1%positive = Some [user_turn (js "a"); assistant_turn (js "b");
                                    user_turn (js "c"); assistant_turn (js "d")]
    /\ sigma' !! r = Some [user_turn (js "c"); assistant_turn (js "d")].
Proof.
  destruct (trim_leaves_input_intact (fun s => s)
              {[ 1%positive := [user_turn (js "a"); assistant_turn (js "b");
                                user_turn (js "c"); assistant_turn (js "d")] ]}
              1%positive
              [user_turn (js "a"); assistant_turn (js "b");
               user_turn (js "c"); assistant_turn (js "d")]
              899998 0 (lookup_singleton_eq _ _))
    as (r & sigma' & H1 & H2 & _ & H4 & _).
  exists r, sigma'. split; [exact H1|]. split; [exact H2|]. exact H4.
Defined.

(** ** Disclaimer classifier *)

(** C3. Fail-closed classification: when the classification attempt
    rejects, for whatever reason, the call still resolves, and with the
    label [NEEDS_DISCLAIMER]. *)
Theorem classifier_fails_closed (openaiClient : OpenAIClient) (text error : jsstring) :
  classify_attempt openaiClient text = Rejected error ->
  exists c,
    classifyTextForDisclaimer openaiClient text = Resolved c
    /\ class_label c = NEEDS_DISCLAIMER.
Proof.
  intros Hfail. exists classification_failed.
  unfold classifyTextForDisclaimer. rewrite Hfail. split; reflexivity.
Qed.


Lemma classifier_fails_closed_witness :
  exists c,
    classifyTextForDisclaimer unreachable_openai (js "You owe $100.") = Resolved c
    /\ class_label c = NEEDS_DISCLAIMER.
Proof.
  apply (classifier_fails_closed unreachable_openai (js "You owe $100.") (js "network error")).
  reflexivity.
Defined.

(** ** Persisted format and storage service *)

Section StorageFacts.

Local Open Scope N_scope.

Lemma stringify_well_formed v :
  utf16_json v -> well_formed_utf16 (JSON_stringify v) = true.
Proof.
  induction v as [| [] | l | s | items IH | members IH] using json_ind; cbn [utf16_json];
    try reflexivity.
  - intros Hl. apply ascii_well_formed, Hl.
  - intros Hs. apply QuoteJSONString_well_formed, Hs.
  - intros Hitems. cbn [JSON_stringify].
    apply (well_formed_app_true [91]); [reflexivity|].
    apply well_formed_app_true; [|reflexivity].
    apply join_comma_well_formed.
    induction IH as [|x xs Hx _ IHxs]; [constructor|].
    destruct Hitems as [Hx' Hxs']. constructor; auto.
  - intros Hmembers. cbn [JSON_stringify].
    apply (well_formed_app_true [123]); [reflexivity|].
    apply well_formed_app_true; [|reflexivity].
    apply join_comma_well_formed.
    induction IH as [|x xs Hx _ IHxs]; [constructor|].
    destruct Hmembers as [[Hk Hv] Hxs']. constructor; auto.
    apply well_formed_app_true; [apply QuoteJSONString_well_formed, Hk|].
    apply (well_formed_app_true [58]); [reflexivity | auto].
Qed.

Lemma js_ascii_wf (s : string) : wf_jsstring (js s).
Proof.
  unfold wf_jsstring, js. apply Forall_forall. intros u Hu.
  apply list_elem_of_In, in_map_iff in Hu as (a & <- & _).
  unfold code_unit. pose proof (N_ascii_bounded a). lia.
Qed.

Lemma history_text_json h : text_json (history_to_json h).
Proof.
  cbn [history_to_json text_json].
  induction h as [|m h IH]; cbn [map foldr]; [exact I|]. split; [|exact IH].
  unfold message_to_json. destruct (content m) as [parts|].
  - cbn [text_json fmap list_fmap fst snd foldr]. split.
    + repeat (apply NoDup_cons; split); [| |apply NoDup_nil_2];
        rewrite ?elem_of_cons, ?elem_of_nil; vm_compute; intuition discriminate.
    + repeat split.
      induction parts as [|c parts IHp]; cbn [map foldr]; [exact I|]. split; [|exact IHp].
      cbn [part_to_json text_json fmap list_fmap fst snd foldr]. split; [|tauto].
      repeat (apply NoDup_cons; split); [| |apply NoDup_nil_2];
        rewrite ?elem_of_cons, ?elem_of_nil; vm_compute; intuition discriminate.
  - cbn [text_json fmap list_fmap fst snd foldr]. split; [|tauto].
    apply NoDup_singleton.
Qed.

Lemma history_utf16_json h : wf_history h -> utf16_json (history_to_json h).
Proof.
  cbn [history_to_json utf16_json].
  induction 1 as [|m h [Hr Hc] _ IH]; cbn [map foldr]; [exact I|]. split; [|exact IH].
  unfold message_to_json. destruct (content m) as [parts|].
  - cbn [utf16_json fst snd foldr]. repeat split; try apply js_ascii_wf; try assumption.
    induction Hc as [|c parts [Ht Hx] _ IHp]; cbn [map foldr]; [exact I|].
    split; [|exact IHp].
    cbn [part_to_json utf16_json fst snd foldr].
    repeat split; try apply js_ascii_wf; assumption.
  - cbn [utf16_json fst snd foldr]. repeat split; try apply js_ascii_wf; assumption.
Qed.

Lemma history_of_to_json h : history_of_json (history_to_json h) = Some h.
Proof.
  cbn [history_to_json history_of_json].
  induction h as [|m h IH]; [reflexivity|].
  cbn [map mapM]. rewrite IH.
  assert (Hm : message_of_json (message_to_json m) = Some m).
  { destruct m as [r [parts|]]; unfold message_to_json; cbn [content role message_of_json].
    - change (bool_decide (js "role" = js "role") && bool_decide (js "content" = js "content"))
        with true. cbv iota.
      assert (Hp : mapM part_of_json (map part_to_json parts) = Some parts).
      { induction parts as [|[t x] parts IHp]; [reflexivity|].
        cbn [map mapM]. rewrite IHp. reflexivity. }
      rewrite Hp. reflexivity.
    - reflexivity. }
  rewrite Hm. reflexivity.
Qed.

(** What was serialised from a history is read back as that history. *)
Lemma parse_content_history h :
  parse_content (Some (JSON_stringify (history_to_json h))) = Resolved (history_to_json h).
Proof.
  unfold parse_content. rewrite (JSON_parse_stringify _ (history_text_json h)).
  reflexivity.
Qed.

(** After [initialize] the service is initialised, and initialising an
    initialised service does nothing. *)
Lemma initialize_initialized io env s : initialized (fst (initialize io env s)) = true.
Proof.
  unfold initialize. destruct (initialized s) eqn:E; [exact E|].
  destruct (useLocalStorage s); [reflexivity|].
  destruct (cloud_connects io); [reflexivity|].
  unfold initializeLocalStorage. cbn [localStoragePath initialized useLocalStorage].
  repeat match goal with |- context [if ?c then _ else _] => destruct c end; reflexivity.
Qed.

Lemma initialize_again io env s :
  initialized s = true -> initialize io env s = (s, Resolved tt).
Proof. intros H. unfold initialize. rewrite H. reflexivity. Qed.


End StorageFacts.

(** X24. Round trip on the local file system: what [saveConversationHistory]
    wrote, [loadConversationHistory] reads back, for every history of
    JavaScript strings. *)
Theorem save_load_local io1 io2 env s d id h :
  wf_history h ->
  snd (initialize io1 env s) = Resolved tt ->
  useLocalStorage (fst (initialize io1 env s)) = true ->
  write_ok io1 = true -> read_ok io2 = true ->
  exists st1,
    saveConversationHistory io1 env (s, d) id h = (st1, Resolved tt)
    /\ loadConversationHistory io2 env st1 id = (st1, Resolved (history_to_json h))
    /\ history_of_json (history_to_json h) = Some h.
Proof.
  intros Hwf Hinit Hlocal Hw Hr.
  unfold saveConversationHistory.
  pose proof (initialize_initialized io1 env s) as Hi.
  destruct (initialize io1 env s) as [s1 r1]. cbn [fst snd] in *. subst r1.
  rewrite Hlocal, Hw. eexists. split; [reflexivity|]. split; [|apply history_of_to_json].
  unfold loadConversationHistory. rewrite (initialize_again io2 env s1 Hi).
  unfold read_content. rewrite Hlocal. cbn [files].
  rewrite lookup_insert_eq, Hr.
  rewrite utf8_roundtrip by (apply stringify_well_formed, history_utf16_json, Hwf).
  cbn [outcome_bind]. rewrite parse_content_history. reflexivity.
Qed.

(** X25. Round trip through blob storage when the serialised history is pure
    ASCII, where [content.length] is the number of bytes. *)
Theorem save_load_cloud_ascii io1 io2 env s d id h :
  ascii_only (JSON_stringify (history_to_json h)) ->
  snd (initialize io1 env s) = Resolved tt ->
  useLocalStorage (fst (initialize io1 env s)) = false ->
  write_ok io1 = true -> read_ok io2 = true ->
  exists st1,
    saveConversationHistory io1 env (s, d) id h = (st1, Resolved tt)
    /\ loadConversationHistory io2 env st1 id = (st1, Resolved (history_to_json h)).
Proof.
  intros Hascii Hinit Hcloud Hw Hr.
  unfold saveConversationHistory.
  pose proof (initialize_initialized io1 env s) as Hi.
  destruct (initialize io1 env s) as [s1 r1]. cbn [fst snd] in *. subst r1.
  rewrite Hcloud, Hw. eexists. split; [reflexivity|].
  unfold loadConversationHistory. rewrite (initialize_again io2 env s1 Hi).
  unfold read_content. rewrite Hcloud, Hr. cbn [blobs].
  rewrite lookup_insert_eq. cbn [fmap option_fmap option_map].
  unfold blob_upload. rewrite (ascii_utf8_encode _ Hascii), firstn_all.
  assert (Hd : utf8_decode (JSON_stringify (history_to_json h))
               = JSON_stringify (history_to_json h)).
  { rewrite <- (ascii_utf8_encode _ Hascii) at 1.
    apply utf8_roundtrip, ascii_well_formed, Hascii. }
  rewrite Hd.
  cbn [outcome_bind]. rewrite parse_content_history. reflexivity.
Qed.

(** Whenever the UTF-8 body is longer than [content.length], the blob is
    not the body. *)
Lemma blob_upload_truncates (content : jsstring) :
  (length content < length (utf8_encode content))%nat ->
  blob_upload content (length content) <> utf8_encode content.
Proof.
  intros Hlt Heq. apply (f_equal length) in Heq.
  unfold blob_upload in Heq. rewrite length_take in Heq. lia.
Qed.


Lemma load_after_initialize io env s d id :
  snd (initialize io env s) = Resolved tt ->
  loadConversationHistory io env (s, d) id
  = ((fst (initialize io env s), d),
     try_catch (outcome_bind (read_content io (fst (initialize io env s)) d id) parse_content)
               (fun _ => Resolved (JArr []))).
Proof.
  intros H. unfold loadConversationHistory.
  destruct (initialize io env s) as [s' r]. cbn [fst snd] in *. subst r. reflexivity.
Qed.

(** C6, as the code has it.  Once the lazy initialisation has gone through,
    [loadConversationHistory] always resolves, persists nothing, and
    resolves with the empty array when nothing is stored for the
    conversation, when reading fails, and when the stored bytes are empty or
    do not parse.  Deleting and then loading yields the empty array
    whenever the delete operation itself went through. *)
Theorem load_degrades_to_empty (io io' : Platform) (env : ProcessEnv)
    (s : StorageService) (d : Persistent) (id : jsstring) :
  snd (initialize io env s) = Resolved tt ->
  let s1 := fst (initialize io env s) in
  (exists v, loadConversationHistory io env (s, d) id = ((s1, d), Resolved v))
  /\ (stored s1 d id = None ->
      snd (loadConversationHistory io env (s, d) id) = Resolved (JArr []))
  /\ (read_ok io = false ->
      snd (loadConversationHistory io env (s, d) id) = Resolved (JArr []))
  /\ (forall bytes,
        stored s1 d id = Some bytes ->
        utf8_decode bytes = [] \/ JSON_parse (utf8_decode bytes) = None ->
        snd (loadConversationHistory io env (s, d) id) = Resolved (JArr []))
  /\ (delete_ok io = true ->
      snd (deleteConversationHistory io env (s, d) id) = Resolved tt
      /\ snd (loadConversationHistory io' env
                (fst (deleteConversationHistory io env (s, d) id)) id)
         = Resolved (JArr [])).
Proof.
  intros Hinit s1.
  pose proof (initialize_initialized io env s) as Hi. fold s1 in Hi.
  rewrite (load_after_initialize io env s d id Hinit). fold s1. cbn [snd].
  split; [|split; [|split; [|split]]].
  - destruct (outcome_bind (read_content io s1 d id) parse_content); eexists; reflexivity.
  - unfold stored, read_content. intros Hnone.
    destruct (useLocalStorage s1).
    + rewrite Hnone. reflexivity.
    + rewrite Hnone. destruct (read_ok io); reflexivity.
  - unfold read_content. intros Hr. rewrite Hr.
    destruct (useLocalStorage s1); [|reflexivity].
    destruct (files d !! _); reflexivity.
  - unfold stored, read_content. intros bytes Hsome Hbad.
    assert (Hparse : try_catch (parse_content (Some (utf8_decode bytes)))
                               (fun _ => Resolved (JArr [])) = Resolved (JArr [])).
    { unfold parse_content. destruct Hbad as [-> | Hbad]; [reflexivity|].
      rewrite Hbad. destruct (utf8_decode bytes); reflexivity. }
    destruct (useLocalStorage s1); rewrite Hsome; destruct (read_ok io); try reflexivity;
      exact Hparse.
  - intros Hdel. unfold deleteConversationHistory.
    destruct (initialize io env s) as [s' r] eqn:E. cbn [fst snd] in *. subst r s1.
    destruct (useLocalStorage s') eqn:Hl.
    + destruct (files d !! path_join (localStoragePath s') (storage_key id)) eqn:Hf.
      * rewrite Hdel. cbn [fst snd]. split; [reflexivity|].
        rewrite load_after_initialize by (rewrite initialize_again; auto).
        rewrite initialize_again by assumption. cbn [fst snd].
        unfold read_content. rewrite Hl. cbn [files]. rewrite lookup_delete_eq. reflexivity.
      * cbn [fst snd]. split; [reflexivity|].
        rewrite load_after_initialize by (rewrite initialize_again; auto).
        rewrite initialize_again by assumption. cbn [fst snd].
        unfold read_content. rewrite Hl, Hf. reflexivity.
    + rewrite Hdel. cbn [fst snd]. split; [reflexivity|].
      rewrite load_after_initialize by (rewrite initialize_again; auto).
      rewrite initialize_again by assumption. cbn [fst snd].
      unfold read_content. rewrite Hl. cbn [blobs]. rewrite lookup_delete_eq.
      destruct (read_ok io'); reflexivity.
Qed.

Lemma load_degrades_to_empty_witness :
  snd (deleteConversationHistory platform_ok local_env saved_storage (js "19:meeting"))
  = Resolved tt
  /\ snd (loadConversationHistory platform_ok local_env
            (fst (deleteConversationHistory platform_ok local_env saved_storage
                    (js "19:meeting")))
            (js "19:meeting"))
     = Resolved (JArr []).
Proof.
  refine (proj2 (proj2 (proj2 (proj2
            (load_degrades_to_empty platform_ok platform_ok local_env
               (fst saved_storage) (snd saved_storage) (js "19:meeting") _)))) _);
    reflexivity.
Defined.

(** C6 where the delete operation throws: the call still resolves, the
    error having been logged and swallowed, the stored history stays, and
    the next load returns it instead of the empty array. *)
Lemma delete_failure_keeps_history :
  snd (deleteConversationHistory platform_delete_fails local_env saved_storage
         (js "19:meeting")) = Resolved tt
  /\ snd (loadConversationHistory platform_ok local_env
            (fst (deleteConversationHistory platform_delete_fails local_env saved_storage
                    (js "19:meeting")))
            (js "19:meeting"))
     = Resolved (history_to_json plain_history)
  /\ history_to_json plain_history <> JArr [].
Proof.
  split; [vm_compute; reflexivity|].
  split; [vm_compute; reflexivity|].
  discriminate.
Qed.

(** ** Message handler *)

Section HandlerFacts.

Variable encode : jsstring -> list N.



End HandlerFacts.



(** After a restart the failed turn restores the persisted history into the
    turn's cache, and commits nothing. *)
Example failed_turn_after_restore :
  let '(w', ctx', r) :=
    onMessage (fun s => s) offline_turn restarted_world (js "19:meeting") (js "And a 1099?") in
  r = Resolved tt
  /\ memory w' = ∅
  /\ persistent w' = persistent restarted_world
  /\ sent w' = [Typing; TextActivity apology]
  /\ cachedHistory ctx' = Some plain_history.
Proof. vm_compute. repeat split. Qed.


(** * Further properties of the code *)

(** ** The trimmer: laziness, monotonicity, the warning *)

Section TrimmerMore.

Variable encode : jsstring -> list N.

Lemma trim_loop_lazy S U h :
  forall j : nat,
    (2 * j + length (trim_loop encode S U h) < length h)%nat ->
    S + U + countTokensInHistory encode (drop (2 * j) h) > MAX_TOKENS.
Proof.
  induction h as [| m | m1 m2 rest IH] using exchange_ind; intros j Hj.
  - simpl in Hj. lia.
  - simpl in Hj. lia.
  - cbn [trim_loop] in Hj.
    destruct (Z.gtb_spec (S + U + countTokensInHistory encode (m1 :: m2 :: rest)) MAX_TOKENS)
      as [Hover|Hfit].
    + destruct j as [|j].
      * change (2 * 0)%nat with 0%nat. cbn [drop]. lia.
      * replace (2 * Datatypes.S j)%nat with (Datatypes.S (Datatypes.S (2 * j))) by lia.
        cbn [drop]. apply IH. cbn [length] in Hj. lia.
    + lia.
Qed.

Lemma count_drop_le (h : list Message) (n : nat) :
  countTokensInHistory encode (drop n h) <= countTokensInHistory encode h.
Proof.
  unfold countTokensInHistory.
  rewrite <- (take_drop n h) at 2. rewrite countTokensInMessages_app.
  pose proof (countTokensInMessages_nonneg encode (take n h)). lia.
Qed.

Lemma trim_loop_monotone S S' U h :
  S <= S' ->
  exists j : nat, trim_loop encode S' U h = drop (2 * j) (trim_loop encode S U h).
Proof.
  intros Hle.
  induction h as [| m | m1 m2 rest IH] using exchange_ind.
  - exists 0%nat. reflexivity.
  - exists 0%nat. reflexivity.
  - cbn [trim_loop].
    destruct (Z.gtb_spec (S + U + countTokensInHistory encode (m1 :: m2 :: rest)) MAX_TOKENS)
      as [Hover|Hfit].
    + destruct (Z.gtb_spec (S' + U + countTokensInHistory encode (m1 :: m2 :: rest)) MAX_TOKENS);
        [exact IH | lia].
    + destruct (S' + U + countTokensInHistory encode (m1 :: m2 :: rest) >? MAX_TOKENS).
      * destruct (trim_loop_drop encode S' U rest) as (k & _ & ->).
        exists (Datatypes.S k).
        replace (2 * Datatypes.S k)%nat with (Datatypes.S (Datatypes.S (2 * k))) by lia.
        reflexivity.
      * exists 0%nat. reflexivity.
Qed.


End TrimmerMore.

(** X1. Trimming is lazy: an exchange is only removed when the history
    that starts with it is over budget.  For every [j] below the number of
    removed exchanges, the history without its first [j] exchanges still
    exceeded [MAX_TOKENS]. *)
Theorem trim_is_lazy (encode : jsstring -> list N) (H : list Message) (S U : Z) (j : nat) :
  (2 * j + length (trimConversationToTokenLimit encode H S U) < length H)%nat ->
  S + U + countTokensInHistory encode (drop (2 * j) H) > MAX_TOKENS.
Proof.
  unfold trimConversationToTokenLimit.
  destruct (length H =? 0)%nat; [lia|]. cbv zeta.
  destruct (S + U + countTokensInHistory encode H <=? MAX_TOKENS); [lia|].
  apply trim_loop_lazy.
Qed.

Lemma trim_is_lazy_witness :
  407 + 0 + countTokensInHistory long_encoder
              [user_turn (js "a"); assistant_turn (js "b");
               user_turn (js "c"); assistant_turn (js "d")] > MAX_TOKENS.
Proof.
  apply (trim_is_lazy long_encoder
           [user_turn (js "a"); assistant_turn (js "b");
            user_turn (js "c"); assistant_turn (js "d")] 407 0 0).
  vm_compute. lia.
Defined.

(** X2. Trimming never adds anything: the result has at most as many
    turns and at most as many tokens as the history it was given. *)
Theorem trim_never_grows (encode : jsstring -> list N) (H : list Message) (S U : Z) :
  (length (trimConversationToTokenLimit encode H S U) <= length H)%nat
  /\ countTokensInHistory encode (trimConversationToTokenLimit encode H S U)
     <= countTokensInHistory encode H.
Proof.
  destruct (trim_drop encode H S U) as (k & Hk & ->). split.
  - rewrite length_drop. lia.
  - apply count_drop_le.
Qed.

(** X3. More fixed overhead never keeps more history: with a larger
    [systemTokens] the result is the result for the smaller one, less a
    whole number of exchanges at its front. *)
Theorem trim_monotone_in_overhead (encode : jsstring -> list N) (H : list Message)
    (S S' U : Z) :
  S <= S' ->
  exists j : nat,
    trimConversationToTokenLimit encode H S' U
    = drop (2 * j) (trimConversationToTokenLimit encode H S U).
Proof.
  intros Hle. unfold trimConversationToTokenLimit.
  destruct (length H =? 0)%nat; [exists 0%nat; reflexivity|]. cbv zeta.
  destruct (Z.leb_spec (S + U + countTokensInHistory encode H) MAX_TOKENS) as [Hfit|Hover].
  - destruct (S' + U + countTokensInHistory encode H <=? MAX_TOKENS);
      [exists 0%nat; reflexivity|].
    destruct (trim_loop_drop encode S' U H) as (k & _ & ->). exists k. reflexivity.
  - destruct (Z.leb_spec (S' + U + countTokensInHistory encode H) MAX_TOKENS); [lia|].
    apply trim_loop_monotone, Hle.
Qed.

Lemma trim_monotone_in_overhead_witness :
  exists j : nat,
    trimConversationToTokenLimit long_encoder
      [user_turn (js "a"); assistant_turn (js "b");
       user_turn (js "c"); assistant_turn (js "d")] 400000 0
    = drop (2 * j)
        (trimConversationToTokenLimit long_encoder
           [user_turn (js "a"); assistant_turn (js "b");
            user_turn (js "c"); assistant_turn (js "d")] 407 0).
Proof.
  apply (trim_monotone_in_overhead long_encoder
           [user_turn (js "a"); assistant_turn (js "b");
            user_turn (js "c"); assistant_turn (js "d")] 407 400000 0).
  lia.
Defined.

(** X4. For a history made of whole exchanges, the budget warning means
    that nothing is left: when the warning condition holds after trimming an
    even-length history, the result is the empty history. *)
Theorem warning_means_empty (encode : jsstring -> list N) (H : list Message) (S U : Z) :
  Nat.Even (length H) ->
  stillOverLimit encode H S U = true ->
  trimConversationToTokenLimit encode H S U = [].
Proof.
  intros [n Hn] Hw.
  pose proof (warning_only_when_exhausted encode H S U Hw) as Hshort.
  destruct (trim_drop encode H S U) as (k & Hk & E).
  rewrite E in *. rewrite length_drop in Hshort.
  apply length_zero_iff_nil. rewrite length_drop. lia.
Qed.

Lemma warning_means_empty_witness :
  trimConversationToTokenLimit long_encoder
    [user_turn (js "a"); assistant_turn (js "b")] 900001 0 = [].
Proof.
  apply (warning_means_empty long_encoder [user_turn (js "a"); assistant_turn (js "b")]
           900001 0).
  - exists 1%nat. reflexivity.
  - vm_compute. reflexivity.
Defined.


(** ** The storage service: initialisation *)

Lemma initializeLocalStorage_mode io env s :
  useLocalStorage (fst (initializeLocalStorage io env s)) = useLocalStorage s
  /\ initialized (fst (initializeLocalStorage io env s)) = initialized s.
Proof.
  unfold initializeLocalStorage.
  repeat match goal with |- context [if ?c then _ else _] => destruct c end; auto.
Qed.

(** X5. The service settles after its first initialisation: once
    [initialize] has run, even if that call threw, a later [initialize]
    returns at once, and no operation of the service changes the service or
    throws any more. *)
Theorem service_settles (io io' : Platform) (env : ProcessEnv) (s : StorageService)
    (d : Persistent) (id : jsstring) (h : list Message) :
  let s1 := fst (initialize io env s) in
  initialize io' env s1 = (s1, Resolved tt)
  /\ fst (fst (saveConversationHistory io' env (s1, d) id h)) = s1
  /\ snd (saveConversationHistory io' env (s1, d) id h) = Resolved tt
  /\ fst (fst (loadConversationHistory io' env (s1, d) id)) = s1
  /\ (exists v, snd (loadConversationHistory io' env (s1, d) id) = Resolved v)
  /\ fst (fst (deleteConversationHistory io' env (s1, d) id)) = s1
  /\ snd (deleteConversationHistory io' env (s1, d) id) = Resolved tt.
Proof.
  intros s1.
  assert (Hagain : initialize io' env s1 = (s1, Resolved tt))
    by apply initialize_again, initialize_initialized.
  split; [exact Hagain|].
  unfold saveConversationHistory, loadConversationHistory, deleteConversationHistory.
  rewrite Hagain.
  repeat split.
  - destruct (useLocalStorage s1), (write_ok io'); reflexivity.
  - destruct (useLocalStorage s1), (write_ok io'); reflexivity.
  - destruct (outcome_bind (read_content io' s1 d id) parse_content); eexists; reflexivity.
  - destruct (useLocalStorage s1); [destruct (files d !! _)|]; destruct (delete_ok io');
      reflexivity.
  - destruct (useLocalStorage s1); [destruct (files d !! _)|]; destruct (delete_ok io');
      reflexivity.
Qed.

(** X6. The fallback is one-way: a service in local mode stays in local
    mode; a service whose first connection to Azure fails is in local mode
    afterwards, and stays there on every later call even if Azure could be
    reached by then. *)
Theorem fallback_is_one_way (io io' : Platform) (env : ProcessEnv) (s : StorageService) :
  (useLocalStorage s = true -> useLocalStorage (fst (initialize io env s)) = true)
  /\ (initialized s = false -> useLocalStorage s = false -> cloud_connects io = false ->
      useLocalStorage (fst (initialize io env s)) = true
      /\ useLocalStorage (fst (initialize io' env (fst (initialize io env s)))) = true).
Proof.
  split.
  - intros Hl. unfold initialize. destruct (initialized s); [exact Hl|].
    rewrite Hl. reflexivity.
  - intros Hi Hl Hc.
    assert (H : useLocalStorage (fst (initialize io env s)) = true).
    { unfold initialize. rewrite Hi, Hl, Hc.
      rewrite (proj1 (initializeLocalStorage_mode io env _)). reflexivity. }
    split; [exact H|]. rewrite initialize_again by apply initialize_initialized. exact H.
Qed.

Lemma fallback_is_one_way_witness :
  useLocalStorage
    (fst (initialize platform_ok azure_env
            (fst (initialize platform_disconnected
                             azure_env (fst (newStorageService platform_ok azure_env))))))
  = true.
Proof.
  apply (proj2 (fallback_is_one_way
                  platform_disconnected
                  platform_ok azure_env (fst (newStorageService platform_ok azure_env))));
    reflexivity.
Defined.

(** X7. [initialize] throws in exactly one situation: the service was not
    initialised and not in local mode, the connection to Azure failed, the
    process runs on Azure, and none of the three directories (the configured
    one, the fallback, the temporary one) exists or can be created. *)
Theorem initialize_rejects_iff (io : Platform) (env : ProcessEnv) (s : StorageService) :
  (exists e, snd (initialize io env s) = Rejected e)
  <-> initialized s = false
      /\ useLocalStorage s = false
      /\ cloud_connects io = false
      /\ RUNNING_ON_AZURE env = true
      /\ dir_exists io (localStoragePath s) = false
      /\ mkdir_ok io (localStoragePath s) = false
      /\ mkdir_ok io fallback_path = false
      /\ mkdir_ok io (path_join (tmpdir env) (js "tax-bot-history")) = false.
Proof.
  unfold initialize, initializeLocalStorage.
  cbn [localStoragePath initialized useLocalStorage].
  destruct (initialized s), (useLocalStorage s), (cloud_connects io),
    (RUNNING_ON_AZURE env), (dir_exists io (localStoragePath s)),
    (mkdir_ok io (localStoragePath s)), (mkdir_ok io fallback_path),
    (mkdir_ok io (path_join (tmpdir env) (js "tax-bot-history")));
    cbn [negb fst snd]; split;
    try (intros [e He]; discriminate He);
    try (intros (H1 & H2 & H3 & H4 & H5 & H6 & H7 & H8); discriminate);
    try (intros _; repeat split; reflexivity);
    try (intros _; eexists; reflexivity).
Qed.

Lemma initialize_rejects_iff_witness :
  exists e, snd (initialize platform_down azure_env
                   (fst (newStorageService platform_down azure_env))) = Rejected e.
Proof.
  apply (proj2 (initialize_rejects_iff platform_down azure_env
                  (fst (newStorageService platform_down azure_env)))).
  repeat split; reflexivity.
Defined.

(** ** The storage service: save, delete *)








(** X10. Deleting twice is deleting once: after a delete that went
    through, a second delete changes nothing and resolves; and deleting a
    conversation for which nothing is stored changes nothing. *)
Theorem delete_is_idempotent (io io' : Platform) (env : ProcessEnv) (s : StorageService)
    (d : Persistent) (id : jsstring) :
  snd (initialize io env s) = Resolved tt ->
  let s1 := fst (initialize io env s) in
  (stored s1 d id = None -> snd (fst (deleteConversationHistory io env (s, d) id)) = d)
  /\ (delete_ok io = true ->
      stored s1 (snd (fst (deleteConversationHistory io env (s, d) id))) id = None
      /\ deleteConversationHistory io' env
           (fst (deleteConversationHistory io env (s, d) id)) id
         = (fst (deleteConversationHistory io env (s, d) id), Resolved tt)).
Proof.
  intros Hinit s1.
  pose proof (initialize_initialized io env s) as Hi. fold s1 in Hi.
  unfold deleteConversationHistory at 1 2 4 5.
  destruct (initialize io env s) as [s' r]. cbn [fst snd] in *. subst r s1.
  unfold stored. destruct d as [fs bs]. cbn [files blobs].
  split.
  - intros Hnone. destruct (useLocalStorage s').
    + rewrite Hnone. reflexivity.
    + destruct (delete_ok io); [|reflexivity]. cbn [fst snd].
      rewrite delete_id by exact Hnone. reflexivity.
  - intros Hdel. rewrite Hdel.
    unfold deleteConversationHistory.
    destruct (useLocalStorage s') eqn:Hl.
    + destruct (fs !! path_join (localStoragePath s') (storage_key id)) eqn:Hf;
        cbn [fst snd files blobs]; rewrite (initialize_again io' env s' Hi), Hl;
        cbn [files blobs].
      * rewrite lookup_delete_eq. split; reflexivity.
      * rewrite Hf. split; reflexivity.
    + cbn [fst snd files blobs]. rewrite (initialize_again io' env s' Hi), Hl.
      cbn [files blobs]. rewrite lookup_delete_eq. split; [reflexivity|].
      destruct (delete_ok io'); [|reflexivity].
      rewrite delete_delete_eq. reflexivity.
Qed.

Lemma delete_is_idempotent_witness :
  stored (fst saved_storage)
         (snd (fst (deleteConversationHistory platform_ok local_env saved_storage
                      (js "19:meeting"))))
         (js "19:meeting") = None
  /\ deleteConversationHistory platform_ok local_env
       (fst (deleteConversationHistory platform_ok local_env saved_storage (js "19:meeting")))
       (js "19:meeting")
     = (fst (deleteConversationHistory platform_ok local_env saved_storage (js "19:meeting")),
        Resolved tt).
Proof.
  refine (proj2 (delete_is_idempotent platform_ok platform_ok local_env
                   (fst saved_storage) (snd saved_storage) (js "19:meeting") _) _);
    reflexivity.
Defined.


(** X11. The directory of the local store.  A service made by the
    constructor is not initialised and is in local mode exactly when
    [USE_LOCAL_STORAGE] is set.  After the constructor and [initialize] its
    directory is the configured one or, on Azure only, one of the two
    fallbacks.  Off Azure neither the constructor nor [initialize] ever
    throws, even when the directory cannot be created, and the directory
    stays the configured one; with [USE_LOCAL_STORAGE] unset the constructor
    does nothing else. *)
Theorem storage_path_candidates (io io' : Platform) (env : ProcessEnv) :
  let s0 := fst (newStorageService io env) in
  let s1 := fst (initialize io' env s0) in
  let configured :=
    if RUNNING_ON_AZURE env then azure_path else path_join (dirname env) (js "history") in
  initialized s0 = false
  /\ useLocalStorage s0 = USE_LOCAL_STORAGE env
  /\ (localStoragePath s1 = configured
      \/ (RUNNING_ON_AZURE env = true
          /\ (localStoragePath s1 = fallback_path
              \/ localStoragePath s1 = path_join (tmpdir env) (js "tax-bot-history"))))
  /\ (RUNNING_ON_AZURE env = false ->
      snd (newStorageService io env) = Resolved tt
      /\ snd (initialize io' env s0) = Resolved tt
      /\ localStoragePath s1 = configured)
  /\ (USE_LOCAL_STORAGE env = false ->
      newStorageService io env = (mkService false false configured, Resolved tt)).
Proof.
  cbv zeta. unfold newStorageService, initialize, initializeLocalStorage.
  cbn [initialized useLocalStorage localStoragePath].
  destruct (USE_LOCAL_STORAGE env), (RUNNING_ON_AZURE env);
    cbn [negb fst snd initialized useLocalStorage localStoragePath];
    repeat match goal with
           | |- context [if ?c then _ else _] =>
               destruct c eqn:?;
               cbn [negb fst snd initialized useLocalStorage localStoragePath]
           end;
    repeat split; auto; try discriminate.
Qed.

Lemma storage_path_candidates_witness :
  snd (newStorageService platform_down local_env) = Resolved tt
  /\ snd (initialize platform_down local_env (fst (newStorageService platform_down local_env)))
     = Resolved tt
  /\ localStoragePath
       (fst (initialize platform_down local_env
               (fst (newStorageService platform_down local_env))))
     = path_join (dirname local_env) (js "history").
Proof.
  apply (proj1 (proj2 (proj2 (proj2 (storage_path_candidates platform_down platform_down
                                       local_env))))).
  reflexivity.
Defined.


(** ** The storage service: what a blob holds *)





(** The local round trip at a history with a non-ASCII character. *)
Lemma save_load_local_witness :
  exists st1,
    saveConversationHistory platform_ok local_env (fresh_storage local_env)
      (js "19:meeting") accented_history = (st1, Resolved tt)
    /\ loadConversationHistory platform_ok local_env st1 (js "19:meeting")
       = (st1, Resolved (history_to_json accented_history))
    /\ history_of_json (history_to_json accented_history) = Some accented_history.
Proof.
  apply (save_load_local platform_ok platform_ok local_env
           (fst (fresh_storage local_env)) (snd (fresh_storage local_env))
           (js "19:meeting") accented_history);
    try reflexivity.
  repeat constructor; vm_compute; try reflexivity; intros; discriminate.
Defined.

(** The round trip through blob storage at an ASCII history. *)
Lemma save_load_cloud_ascii_witness :
  exists st1,
    saveConversationHistory platform_ok azure_env (fresh_storage azure_env)
      (js "19:meeting") plain_history = (st1, Resolved tt)
    /\ loadConversationHistory platform_ok azure_env st1 (js "19:meeting")
       = (st1, Resolved (history_to_json plain_history)).
Proof.
  apply (save_load_cloud_ascii platform_ok platform_ok azure_env
           (fst (fresh_storage azure_env)) (snd (fresh_storage azure_env))
           (js "19:meeting") plain_history);
    try reflexivity.
  vm_compute. repeat constructor.
Defined.


(** ** The message handler: a turn that the model answers *)

Section TurnFacts.

Variable encode : jsstring -> list N.



End TurnFacts.








(** ** The message handler: isolation of conversations *)




Section IsolationFacts.

Variable encode : jsstring -> list N.


End IsolationFacts.



(** ** The message handler: [/restart] *)

Lemma delete_resolved io env s d id :
  snd (initialize io env s) = Resolved tt ->
  exists d',
    deleteConversationHistory io env (s, d) id
    = ((fst (initialize io env s), d'), Resolved tt)
    /\ (delete_ok io = true -> stored (fst (initialize io env s)) d' id = None)
    /\ (delete_ok io = false -> d' = d).
Proof.
  intros Hinit. unfold deleteConversationHistory, stored.
  destruct (initialize io env s) as [s1 r]. cbn [fst snd] in *. subst r.
  destruct (useLocalStorage s1).
  - destruct (files d !! path_join (localStoragePath s1) (storage_key id)) eqn:Hf.
    + destruct (delete_ok io); eexists; (split; [reflexivity|]); cbn [files].
      * split; [intros _; apply lookup_delete_eq | discriminate].
      * split; [discriminate | reflexivity].
    + eexists. split; [reflexivity|]. split; [intros _; exact Hf | reflexivity].
  - destruct (delete_ok io); eexists; (split; [reflexivity|]); cbn [blobs].
    + split; [intros _; apply lookup_delete_eq | discriminate].
    + split; [discriminate | reflexivity].
Qed.

Lemma delete_rejected io env s d id e :
  snd (initialize io env s) = Rejected e ->
  deleteConversationHistory io env (s, d) id = ((fst (initialize io env s), d), Rejected e).
Proof.
  intros Hinit. unfold deleteConversationHistory.
  destruct (initialize io env s) as [s1 r]. cbn [fst snd] in *. subst r. reflexivity.
Qed.

(** X17. The reset command, in any letter case: the conversation state is
    committed as the empty history before anything else.  When the storage
    service initialises, the handler completes and sends the confirmation,
    the standard disclaimer and the hint, in this order; the stored history
    is gone if the delete went through, and everything persisted is
    untouched if it did not.  When the initialisation throws, the handler
    throws as well, having sent nothing. *)
Theorem restart_resets (encode : jsstring -> list N) (te : TurnEnv) (w : BotWorld)
    (id txt : jsstring) :
  toLowerCase txt = js "/restart" ->
  let s1 := fst (initialize (io_delete te) (process_env te) (service w)) in
  let '(w', ctx', r) := onMessage encode te w id txt in
  memory w' = <[id := []]> (memory w)
  /\ cachedHistory ctx' = Some []
  /\ service w' = s1
  /\ (snd (initialize (io_delete te) (process_env te) (service w)) = Resolved tt ->
      r = Resolved tt
      /\ sent w'
         = sent w
           ++ [TextActivity (js "Conversation history has been reset! Let's start over!");
               TextActivity standardDisclaimer;
               TextActivity (js "You can type '/restart' anytime to start fresh!")]
      /\ (delete_ok (io_delete te) = true -> stored s1 (persistent w') id = None)
      /\ (delete_ok (io_delete te) = false -> persistent w' = persistent w))
  /\ (forall e,
        snd (initialize (io_delete te) (process_env te) (service w)) = Rejected e ->
        r = Rejected e /\ sent w' = sent w /\ persistent w' = persistent w).
Proof.
  intros Hcmd s1. unfold onMessage.
  rewrite bool_decide_eq_true_2 by exact Hcmd.
  unfold onRestart, saveChanges, accessor_set.
  cbn [cachedHistory memory service persistent sent]. subst s1.
  destruct (snd (initialize (io_delete te) (process_env te) (service w))) as [[]|e] eqn:Hinit.
  - destruct (delete_resolved (io_delete te) (process_env te) (service w) (persistent w)
                id Hinit) as (d' & -> & Hd1 & Hd2).
    unfold send. cbn [memory service persistent sent cachedHistory].
    repeat split; try assumption; try discriminate.
    rewrite <- !app_assoc. reflexivity.
  - rewrite (delete_rejected (io_delete te) (process_env te) (service w) (persistent w)
               id e Hinit).
    cbn [memory service persistent sent cachedHistory].
    repeat split; try discriminate; congruence.
Qed.

Lemma restart_resets_witness :
  let '(w', ctx', r) :=
    onMessage (fun s => s) online_turn busy_world (js "19:meeting") (js "/ReStArT") in
  r = Resolved tt
  /\ memory w' = <[js "19:meeting" := []]> (memory busy_world)
  /\ sent w'
     = sent busy_world
       ++ [TextActivity (js "Conversation history has been reset! Let's start over!");
           TextActivity standardDisclaimer;
           TextActivity (js "You can type '/restart' anytime to start fresh!")]
  /\ stored (service w') (persistent w') (js "19:meeting") = None.
Proof.
  pose proof (restart_resets (fun s => s) online_turn busy_world (js "19:meeting")
                (js "/ReStArT")) as H.
  cbv zeta in H.
  destruct (onMessage (fun s => s) online_turn busy_world (js "19:meeting") (js "/ReStArT"))
    as [[w' ctx'] r].
  destruct H as (Hm & _ & Hs & Hok & _); [vm_compute; reflexivity|].
  destruct Hok as (Hr & Hsent & Hdel & _); [reflexivity|].
  split; [exact Hr|]. split; [exact Hm|]. split; [exact Hsent|].
  rewrite Hs. apply Hdel. reflexivity.
Defined.


(** ** The message handler: where the history of a turn comes from *)

Lemma read_stored io s d id bytes :
  stored s d id = Some bytes -> read_ok io = true ->
  read_content io s d id = Resolved (Some (utf8_decode bytes)).
Proof.
  unfold stored, read_content. destruct (useLocalStorage s); intros -> ->; reflexivity.
Qed.

Lemma restore_from_history h :
  restore_from (history_to_json h) = match h with [] => None | _ => Some (History h) end.
Proof.
  destruct h as [|m h]; [reflexivity|].
  change (restore_from (history_to_json (m :: h)))
    with (match history_of_json (history_to_json (m :: h)) with
          | Some h' => Some (History h')
          | None => Some NotTurnRecords
          end).
  rewrite history_of_to_json. reflexivity.
Qed.

(** With nothing in memory, the turn starts from what a save has stored. *)
Lemma loadHistory_restores te w id h :
  default [] (memory w !! id) = [] ->
  snd (initialize (io_load te) (process_env te) (service w)) = Resolved tt ->
  stored (fst (initialize (io_load te) (process_env te) (service w))) (persistent w) id
  = Some (utf8_encode (JSON_stringify (history_to_json h))) ->
  wf_history h ->
  read_ok (io_load te) = true ->
  snd (loadHistory te w (mkContext None) id) = History h.
Proof.
  intros Hm Hinit Hst Hwf Hr. unfold loadHistory, accessor_get. cbn [cachedHistory].
  rewrite Hm. cbn [length Nat.eqb].
  rewrite (load_after_initialize _ _ _ _ _ Hinit).
  rewrite (read_stored _ _ _ _ _ Hst Hr).
  rewrite utf8_roundtrip by (apply stringify_well_formed, history_utf16_json, Hwf).
  cbn [outcome_bind]. rewrite parse_content_history. cbn [try_catch].
  rewrite restore_from_history. destruct h; reflexivity.
Qed.

(** X18. Where a turn takes its history from.  A non-empty conversation
    state is used as it is, and the storage service is not touched.  With an
    empty conversation state the storage service is asked: the turn starts
    from the empty history when nothing is stored, when reading fails, or
    when the service cannot initialise (the error is caught), and from the
    history that was saved when its stored bytes can be read. *)
Theorem history_comes_from_memory_first (te : TurnEnv) (w : BotWorld) (id : jsstring) :
  (forall h, memory w !! id = Some h -> h <> [] ->
             loadHistory te w (mkContext None) id = (w, mkContext (Some h), History h))
  /\ (default [] (memory w !! id) = [] ->
      let s1 := fst (initialize (io_load te) (process_env te) (service w)) in
      (stored s1 (persistent w) id = None
       \/ read_ok (io_load te) = false
       \/ (exists e, snd (initialize (io_load te) (process_env te) (service w)) = Rejected e) ->
       snd (loadHistory te w (mkContext None) id) = History [])
      /\ (forall h,
            snd (initialize (io_load te) (process_env te) (service w)) = Resolved tt ->
            stored s1 (persistent w) id
            = Some (utf8_encode (JSON_stringify (history_to_json h))) ->
            wf_history h ->
            read_ok (io_load te) = true ->
            snd (loadHistory te w (mkContext None) id) = History h)).
Proof.
  split.
  - intros h Hm Hne. unfold loadHistory, accessor_get. cbn [cachedHistory].
    rewrite Hm. cbn [default]. destruct h as [|m h]; [contradiction|]. reflexivity.
  - intros Hm s1. split.
    + intros Hempty. unfold loadHistory, accessor_get. cbn [cachedHistory].
      rewrite Hm. cbn [length Nat.eqb].
      unfold loadConversationHistory. subst s1.
      destruct (initialize (io_load te) (process_env te) (service w)) as [s [[]|e]];
        cbn [fst snd] in *; [|reflexivity].
      assert (Hread : try_catch (outcome_bind (read_content (io_load te) s (persistent w) id)
                                              parse_content)
                                (fun _ => Resolved (JArr [])) = Resolved (JArr [])).
      { unfold stored, read_content in *.
        destruct Hempty as [Hnone | [Hr | [e He]]]; [| |discriminate He].
        - destruct (useLocalStorage s); rewrite Hnone; [reflexivity|].
          destruct (read_ok (io_load te)); reflexivity.
        - rewrite Hr. destruct (useLocalStorage s); [|reflexivity].
          destruct (files (persistent w) !! _); reflexivity. }
      rewrite Hread. reflexivity.
    + intros h Hinit Hst Hwf Hr. apply loadHistory_restores; assumption.
Qed.

Lemma history_comes_from_memory_first_witness :
  snd (loadHistory online_turn restarted_world (mkContext None) (js "19:meeting"))
  = History plain_history.
Proof.
  refine (proj2 (proj2 (history_comes_from_memory_first online_turn restarted_world
                          (js "19:meeting")) _) plain_history _ _ _ _);
    try reflexivity.
  repeat constructor; vm_compute; try reflexivity; intros; discriminate.
Defined.

(** X19. A reset whose delete fails does not last.  When the delete
    operation throws during [/restart], the handler still completes and the
    conversation state is empty, but the stored history stays, and the next
    turn of the conversation starts from it again. *)
Theorem failed_delete_undoes_restart (encode : jsstring -> list N) (te te' : TurnEnv)
    (w : BotWorld) (id txt : jsstring) (h : list Message) :
  toLowerCase txt = js "/restart" ->
  snd (initialize (io_delete te) (process_env te) (service w)) = Resolved tt ->
  delete_ok (io_delete te) = false ->
  stored (fst (initialize (io_delete te) (process_env te) (service w))) (persistent w) id
  = Some (utf8_encode (JSON_stringify (history_to_json h))) ->
  wf_history h ->
  read_ok (io_load te') = true ->
  let '(w', _, r) := onMessage encode te w id txt in
  r = Resolved tt
  /\ memory w' !! id = Some []
  /\ snd (loadHistory te' w' (mkContext None) id) = History h.
Proof.
  intros Hcmd Hinit Hdel Hst Hwf Hr. unfold onMessage.
  rewrite bool_decide_eq_true_2 by exact Hcmd.
  unfold onRestart, saveChanges, accessor_set.
  cbn [cachedHistory memory service persistent sent].
  destruct (delete_resolved (io_delete te) (process_env te) (service w) (persistent w)
              id Hinit) as (d' & -> & _ & Hd).
  rewrite (Hd Hdel).
  split; [reflexivity|]. unfold send. cbn [memory service persistent sent].
  split; [apply lookup_insert_eq|].
  pose proof (initialize_initialized (io_delete te) (process_env te) (service w)) as Hi.
  apply loadHistory_restores; cbn [memory service persistent].
  - rewrite lookup_insert_eq. reflexivity.
  - rewrite initialize_again by exact Hi. reflexivity.
  - rewrite initialize_again by exact Hi. exact Hst.
  - exact Hwf.
  - exact Hr.
Qed.

Lemma failed_delete_undoes_restart_witness :
  let '(w', _, r) :=
    onMessage (fun s => s)
      (mkTurnEnv local_env answering_openai (js "Monday, November 2, 2026")
                 platform_delete_fails platform_ok platform_ok)
      busy_world (js "19:meeting") (js "/restart") in
  r = Resolved tt
  /\ memory w' !! js "19:meeting" = Some []
  /\ snd (loadHistory online_turn w' (mkContext None) (js "19:meeting"))
     = History plain_history.
Proof.
  apply (failed_delete_undoes_restart (fun s => s)
           (mkTurnEnv local_env answering_openai (js "Monday, November 2, 2026")
                      platform_delete_fails platform_ok platform_ok)
           online_turn busy_world (js "19:meeting") (js "/restart") plain_history);
    try reflexivity.
  repeat constructor; vm_compute; try reflexivity; intros; discriminate.
Defined.





(** ** The message handler: the request and the reply *)




(** X22. The reply is never empty: whatever shape the response of the
    model has, [response_text] yields its text or one of the fixed
    fallback sentences, never the empty string. *)
Theorem response_text_nonempty (response : ModelResponse) :
  response_text response <> []
  /\ (output_text response <> [] -> response_text response = output_text response).
Proof.
  unfold response_text. split.
  - destruct (output_text response) as [|u s]; cbn [nonempty]; [|discriminate].
    destruct (output response) as [|item items]; cbn [nonempty]; [discriminate|].
    destruct (find _ (item :: items)) as [messageOutput|]; [|discriminate].
    destruct (item_content messageOutput) as [|part parts]; cbn [nonempty]; [discriminate|].
    destruct (find _ (part :: parts)) as [textContent|]; [|discriminate].
    destruct (text textContent) as [|u s]; cbn [nonempty]; discriminate.
  - intros Hne. destruct (output_text response); [contradiction | reflexivity].
Qed.

Lemma response_text_nonempty_witness :
  response_text (mkResponse (js "Sure.") []) = js "Sure.".
Proof.
  apply (proj2 (response_text_nonempty (mkResponse (js "Sure.") []))).
  discriminate.
Defined.

(** ** The members-added handler *)

(** X23. New members are greeted once.  However many members were added,
    the handler sends the standard disclaimer and the hint exactly once when
    at least one of them has an id, and nothing otherwise; it never touches
    the conversation state or what is persisted. *)
Theorem members_added_greets_once (membersAdded : list ChannelAccount) (w : BotWorld) :
  memory (onMembersAdded membersAdded w) = memory w
  /\ service (onMembersAdded membersAdded w) = service w
  /\ persistent (onMembersAdded membersAdded w) = persistent w
  /\ sent (onMembersAdded membersAdded w)
     = sent w
       ++ (if existsb has_id membersAdded
           then [TextActivity standardDisclaimer;
                 TextActivity (js "You can type '/restart' anytime to start fresh!")]
           else []).
Proof.
  induction membersAdded as [|member rest IH]; cbn [onMembersAdded existsb].
  - rewrite app_nil_r. auto.
  - destruct (has_id member); cbn [orb]; [|exact IH].
    unfold send. cbn [memory service persistent sent].
    rewrite <- app_assoc. auto.
Qed.


(** ** The message handler and the adapter: errors *)

Section ErrorFacts.

Variable encode : jsstring -> list N.


End ErrorFacts.




